(** * Git worktree scripts: add / remove a worktree, resolve the base
      directory and the main branch.

    Shallow embedding of [src/git-worktree-utils.ts], [src/git-worktree-add.ts]
    and [src/git-worktree-remove.ts].

    - JavaScript strings are [string]s: a sequence of code units, each an
      [ascii].  Every literal that the scripts compare against is ASCII; the
      decorative symbols of the status messages are kept as their bytes.
    - The scripts talk to [git], to the terminal and to the process.  These
      are effects: a script is a function from a [State] to an [Outcome] and
      a new [State].  The state carries the (abstract) world behind [git],
      the working directory of the process and the trace of every
      interaction so far, in the order in which it happened. *)

From Stdlib Require Import String Ascii List Bool Arith ZArith Lia.
Import ListNotations.
Open Scope string_scope.
Open Scope list_scope.

(* ===================================================================== *)
(** ** JavaScript string primitives used by the scripts *)
(* ===================================================================== *)

Module Js.

(** The line feed, [\n]. *)
Definition LF : ascii := ascii_of_nat 10.
Definition nl : string := String LF EmptyString.

(** [\s] of a regular expression and the characters [trim] removes,
    restricted to one-byte code units: TAB, LF, VT, FF, CR and SPACE. *)
Definition is_ws (c : ascii) : bool :=
  let n := nat_of_ascii c in
  ((n =? 9) || (n =? 10) || (n =? 11) || (n =? 12) || (n =? 13) || (n =? 32))%nat.

(** Line terminators, which [.] of a regular expression does not match. *)
Definition is_line_terminator (c : ascii) : bool :=
  let n := nat_of_ascii c in ((n =? 10) || (n =? 13))%nat.

(** A string is truthy when it is not empty. *)
Definition truthy (s : string) : bool :=
  match s with EmptyString => false | String _ _ => true end.

(** [undefined] is falsy, a string is truthy when not empty. *)
Definition truthy_opt (o : option string) : bool :=
  match o with None => false | Some s => truthy s end.

Fixpoint trimStart (s : string) : string :=
  match s with
  | EmptyString => EmptyString
  | String c r => if is_ws c then trimStart r else s
  end.

Fixpoint trimEnd (s : string) : string :=
  match s with
  | EmptyString => EmptyString
  | String c r =>
      match trimEnd r with
      | EmptyString => if is_ws c then EmptyString else String c EmptyString
      | r' => String c r'
      end
  end.

(** [s.trim()] *)
Definition trim (s : string) : string := trimEnd (trimStart s).

(** [s.split(sep)] for a one-character separator: never empty. *)
Fixpoint split (sep : ascii) (s : string) : list string :=
  match s with
  | EmptyString => [EmptyString]
  | String c r =>
      if Ascii.eqb c sep then EmptyString :: split sep r
      else match split sep r with
           | [] => [String c EmptyString]
           | h :: t => String c h :: t
           end
  end.

(** [s.split(/\s+/)[0]]: the characters before the first white space. *)
Fixpoint first_field (s : string) : string :=
  match s with
  | EmptyString => EmptyString
  | String c r => if is_ws c then EmptyString else String c (first_field r)
  end.

(** [s.startsWith(p)] *)
Fixpoint startsWith (p s : string) : bool :=
  match p with
  | EmptyString => true
  | String a p' =>
      match s with
      | EmptyString => false
      | String b s' => Ascii.eqb a b && startsWith p' s'
      end
  end.

(** [s.endsWith(suffix)] *)
Fixpoint endsWith (suffix s : string) : bool :=
  String.eqb s suffix ||
  match s with
  | EmptyString => false
  | String _ r => endsWith suffix r
  end.

(** [s.replace(/<suffix>$/, "")] for a literal [suffix] that is not empty:
    the only place where the pattern can match is the end of [s]. *)
Fixpoint remove_at_end (suffix s : string) : string :=
  if String.eqb s suffix then EmptyString
  else match s with
       | EmptyString => EmptyString
       | String c r => String c (remove_at_end suffix r)
       end.

(** [s.replace(/^\*?\s*/, "")]: an optional star, then white space. *)
Definition strip_marker (s : string) : string :=
  match s with
  | String "*" r => trimStart r
  | _ => trimStart s
  end.

(** The longest prefix without a line terminator: what [(.+)] captures. *)
Fixpoint line_prefix (s : string) : string :=
  match s with
  | EmptyString => EmptyString
  | String c r =>
      if is_line_terminator c then EmptyString else String c (line_prefix r)
  end.

Fixpoint drop (n : nat) (s : string) : string :=
  match n, s with
  | O, _ => s
  | S n', String _ r => drop n' r
  | S _, EmptyString => EmptyString
  end.

(** [s.match(/<lit>(.+)/)]: group 1 of the leftmost match, if any. *)
Fixpoint match_after (lit s : string) : option string :=
  let here :=
    if startsWith lit s
    then match line_prefix (drop (String.length lit) s) with
         | EmptyString => None
         | cap => Some cap
         end
    else None in
  match here with
  | Some cap => Some cap
  | None => match s with
            | EmptyString => None
            | String _ r => match_after lit r
            end
  end.

Definition lower (c : ascii) : ascii :=
  let n := nat_of_ascii c in
  if ((65 <=? n) && (n <=? 90))%nat then ascii_of_nat (n + 32) else c.

(** [s.toLowerCase()] on one-byte code units. *)
Fixpoint toLowerCase (s : string) : string :=
  match s with
  | EmptyString => EmptyString
  | String c r => String (lower c) (toLowerCase r)
  end.

(** [xs.includes(x)] on an array of strings. *)
Definition includes (xs : list string) (x : string) : bool :=
  existsb (String.eqb x) xs.

(** [xs.pop()] after a [split]: the last element. *)
Definition last_segment (s : string) : string :=
  last (split "/" s) EmptyString.

End Js.

(* ===================================================================== *)
(** ** git-worktree-utils.ts: the pure part *)
(* ===================================================================== *)

(** [reduce] with no initial value: [None] is the [TypeError] that an empty
    array raises. *)
Definition reduce {A} (f : A -> A -> A) (xs : list A) : option A :=
  match xs with
  | [] => None
  | x :: rest => Some (fold_left f rest x)
  end.

Definition shorter (shortest current : string) : string :=
  if (String.length current <? String.length shortest)%nat then current else shortest.

(** [determineWorktreeBase(worktreePaths)]; [None] when the call throws. *)
Definition determineWorktreeBase (worktreePaths : list string) : option string :=
  let bareGitPath := find (Js.endsWith ".git") worktreePaths in
  if Js.truthy_opt bareGitPath then
    match bareGitPath with
    | Some p => Some (Js.remove_at_end "/.git" p)
    | None => None
    end
  else reduce shorter worktreePaths.

(** The parsing of [git worktree list] in [getWorktreePaths]. *)
Definition parse_worktree_list (stdout : string) : list string :=
  filter (fun path => (0 <? String.length path)%nat)
         (map Js.first_field (Js.split Js.LF (Js.trim stdout))).

(* ===================================================================== *)
(** ** Effects: the git backend, the terminal and the process *)
(* ===================================================================== *)

(** The git command lines the scripts run through [$]. *)
Inductive Cmd : Type :=
| GitDir                                  (* git rev-parse --git-dir *)
| RemoteHead                              (* git symbolic-ref refs/remotes/origin/HEAD 2>/dev/null || echo <empty> *)
| ShowRefLocal (branchName : string)      (* git show-ref --verify --quiet refs/heads/<b> *)
| ShowRefRemote (branchName : string)     (* git show-ref --verify --quiet refs/remotes/origin/<b> *)
| BranchList                              (* git branch --list *)
| WorktreeList                            (* git worktree list *)
| WorktreeAdd (targetPath branchName : string)
                                          (* git worktree add <path> <b> *)
| WorktreeAddNew (targetPath mainBranch branchName : string)
                                          (* git worktree add <path> <main> -b <b> *)
| ShowCurrent (dir : option string)       (* git [-C <dir>] branch --show-current *)
| Checkout (branchName : string)          (* git checkout <b> *)
| CheckoutDetach (branchName : string)    (* git checkout --detach <b> *)
| WorktreeRemove (path : string).         (* git worktree remove <path> --force *)

(** What [$] gives back: the standard output of a command that exits with
    0, or the error it throws for any other exit. *)
Inductive Reply : Type :=
| Ok (stdout : string)
| Failed (message : string).

(** The commands that change the repository or a working tree. *)
Definition mutating (c : Cmd) : bool :=
  match c with
  | WorktreeAdd _ _ | WorktreeAddNew _ _ _
  | Checkout _ | CheckoutDetach _ | WorktreeRemove _ => true
  | GitDir | RemoteHead | ShowRefLocal _ | ShowRefRemote _
  | BranchList | WorktreeList | ShowCurrent _ => false
  end.

(** One interaction of a script with its environment. *)
Inductive Event : Type :=
| EvRun (dir : string) (c : Cmd) (r : Reply)    (* [$] run in [dir] *)
| EvAsk (prompt : string) (answer : option string)
                                                (* [question]; [None]: interrupted *)
| EvChdir (path : string) (ok : bool)           (* [process.chdir] *)
| EvOut (line : string)                         (* [console.log] *)
| EvErr (line : string).                        (* [console.error] *)

(** How a computation ends: with a value, with a thrown error (its
    message), or with [process.exit], which no [catch] sees. *)
Inductive Outcome (A : Type) : Type :=
| Done (a : A)
| Thrown (message : string)
| Exited (code : Z).
Arguments Done {A} a.
Arguments Thrown {A} message.
Arguments Exited {A} code.

(** The environment of a script.  [run dir c w] is git's answer to [c]
    issued from directory [dir] in world [w], and the world after it. *)
Class Backend (W : Type) : Type := {
  run : string -> Cmd -> W -> Reply * W;
  ask : string -> W -> option string * W;
  can_chdir : string -> W -> bool
}.

Section Scripts.

Context {W : Type} {B : Backend W}.

Record State : Type := mkState {
  world : W;
  cwd : string;
  trace : list Event
}.

Definition M (A : Type) : Type := State -> Outcome A * State.

Definition ret {A} (a : A) : M A := fun s => (Done a, s).

Definition bind {A C} (m : M A) (f : A -> M C) : M C :=
  fun s =>
    match m s with
    | (Done a, s') => f a s'
    | (Thrown e, s') => (Thrown e, s')
    | (Exited c, s') => (Exited c, s')
    end.

(** [throw new Error(message)] *)
Definition throw {A} (message : string) : M A := fun s => (Thrown message, s).

(** [try { m } catch (error) { handler(error.message) }] *)
Definition try_catch {A} (m : M A) (handler : string -> M A) : M A :=
  fun s =>
    match m s with
    | (Thrown e, s') => handler e s'
    | other => other
    end.

Definition emit (e : Event) (s : State) : State :=
  mkState (world s) (cwd s) (trace s ++ [e]).

(** [await $`...`]: the standard output, or a throw. *)
Definition sh (c : Cmd) : M string :=
  fun s =>
    let (r, w') := run (cwd s) c (world s) in
    let s' := mkState w' (cwd s) (trace s ++ [EvRun (cwd s) c r]) in
    match r with
    | Ok out => (Done out, s')
    | Failed e => (Thrown e, s')
    end.

(** [await question(prompt)]; the message of an interrupted prompt is a
    stand-in, no script prints it. *)
Definition question (prompt : string) : M string :=
  fun s =>
    let (a, w') := ask prompt (world s) in
    let s' := mkState w' (cwd s) (trace s ++ [EvAsk prompt a]) in
    match a with
    | Some answer => (Done answer, s')
    | None => (Thrown "interrupted", s')
    end.

Definition console_log (line : string) : M unit :=
  fun s => (Done tt, emit (EvOut line) s).

Definition console_error (line : string) : M unit :=
  fun s => (Done tt, emit (EvErr line) s).

Definition process_exit {A} (code : Z) : M A := fun s => (Exited code, s).

Definition process_cwd : M string := fun s => (Done (cwd s), s).

(** [process.chdir(path)]; the message stands for the one of Node. *)
Definition process_chdir (path : string) : M unit :=
  fun s =>
    if can_chdir path (world s)
    then (Done tt, mkState (world s) path (trace s ++ [EvChdir path true]))
    else (Thrown ("ENOENT: no such file or directory, chdir " ++ path),
          emit (EvChdir path false) s).

End Scripts.

Arguments State W : clear implicits.
Arguments M W A : clear implicits.

Declare Scope script_scope.
Delimit Scope script_scope with script.
Notation "x <- m ;; k" := (bind m (fun x => k))
  (at level 61, m at next level, right associativity) : script_scope.
Notation "m ;;; k" := (bind m (fun _ => k))
  (at level 61, right associativity) : script_scope.
Open Scope script_scope.

(* ===================================================================== *)
(** ** git-worktree-utils.ts: the functions that use git *)
(* ===================================================================== *)

Section Utils.

Context {W : Type} {B : Backend W}.

(** [validateGitRepository()] *)
Definition validateGitRepository : M W unit :=
  try_catch (sh GitDir ;;; ret tt)
            (fun _ => throw "Not in a git repository").

Definition commonMainBranches : list string :=
  ["main"; "develop"; "dev"; "master"].

(** The three blocks of [discoverMainBranch] that may [return]: [Some b]
    is [return b], [None] is falling out of the block. *)

Definition tryRemoteHead : M W (option string) :=
  try_catch
    (remoteHeadOutput <- sh RemoteHead ;;
     let remoteHead := Js.trim remoteHeadOutput in
     if Js.truthy remoteHead then
       match Js.match_after "refs/remotes/origin/" remoteHead with
       | Some defaultBranch =>
           console_log ("Using default branch: " ++ defaultBranch) ;;;
           ret (Some defaultBranch)
       | None => ret None
       end
     else ret None)
    (fun _ => ret None).

Fixpoint tryCommonBranches (names : list string) : M W (option string) :=
  match names with
  | [] => ret None
  | branchName :: rest =>
      found <-
        try_catch
          (sh (ShowRefLocal branchName) ;;;
           console_log ("Using main branch: " ++ branchName) ;;;
           ret (Some branchName))
          (fun _ =>
             try_catch
               (sh (ShowRefRemote branchName) ;;;
                console_log ("Using main branch: " ++ branchName
                             ++ " (from remote)") ;;;
                ret (Some branchName))
               (fun _ => ret None)) ;;
      match found with
      | Some b => ret (Some b)
      | None => tryCommonBranches rest
      end
  end.

Definition tryFirstBranch : M W (option string) :=
  try_catch
    (branchOutput <- sh BranchList ;;
     let firstBranch :=
       Js.strip_marker
         (hd EmptyString (Js.split Js.LF (Js.trim branchOutput))) in
     if Js.truthy firstBranch then
       console_log ("Using fallback branch: " ++ firstBranch) ;;;
       ret (Some firstBranch)
     else ret None)
    (fun _ => ret None).

(** [discoverMainBranch()] *)
Definition discoverMainBranch : M W string :=
  fromRemote <- tryRemoteHead ;;
  match fromRemote with
  | Some b => ret b
  | None =>
      fromCommon <- tryCommonBranches commonMainBranches ;;
      match fromCommon with
      | Some b => ret b
      | None =>
          fromList <- tryFirstBranch ;;
          match fromList with
          | Some b => ret b
          | None =>
              console_log "Using default fallback: main" ;;; ret "main"
          end
      end
  end.

(** [getWorktreePaths()] *)
Definition getWorktreePaths : M W (list string) :=
  worktreeListOutput <- sh WorktreeList ;;
  ret (parse_worktree_list worktreeListOutput).

(** A call of [determineWorktreeBase] inside a script: the [TypeError] of
    [reduce] on an empty array becomes a throw. *)
Definition determineWorktreeBaseM (worktreePaths : list string) : M W string :=
  match determineWorktreeBase worktreePaths with
  | Some base => ret base
  | None => throw "Reduce of empty array with no initial value"
  end.

(** [branchExistsLocally(branchName)] *)
Definition branchExistsLocally (branchName : string) : M W bool :=
  try_catch (sh (ShowRefLocal branchName) ;;; ret true)
            (fun _ => ret false).

(** [getCurrentDirectory()] *)
Definition getCurrentDirectory : M W string := process_cwd.

(** [getCurrentBranch(path?)]: the [-C] form only for a truthy [path]. *)
Definition getCurrentBranch (path : option string) : M W string :=
  result <- sh (if Js.truthy_opt path then ShowCurrent path
                else ShowCurrent None) ;;
  ret (Js.trim result).

(** [isCurrentDirectoryWorktree()] *)
Definition isCurrentDirectoryWorktree : M W bool :=
  try_catch
    (currentDir <- getCurrentDirectory ;;
     worktreePaths <- getWorktreePaths ;;
     worktreeBase <- determineWorktreeBaseM worktreePaths ;;
     ret (negb (String.eqb currentDir worktreeBase)
          && Js.includes worktreePaths currentDir))
    (fun _ => ret false).

(** [switchToDirectory(targetPath, message?)] *)
Definition switchToDirectory (targetPath : string) (message : option string)
  : M W unit :=
  (if Js.truthy_opt message
   then match message with
        | Some m => console_log m
        | None => ret tt
        end
   else ret tt) ;;;
  console_log ("WORKTREE_PATH:" ++ targetPath).

End Utils.

(* ===================================================================== *)
(** ** git-worktree-add.ts *)
(* ===================================================================== *)

Section Add.

Context {W : Type} {B : Backend W}.

Definition switchToExistingWorktree (targetPath : string) : M W unit :=
  console_log ("Switched to existing worktree: " ++ targetPath) ;;;
  currentBranch <- getCurrentBranch (Some targetPath) ;;
  console_log ("On branch: " ++ currentBranch) ;;;
  switchToDirectory targetPath None.

Definition createWorktreeWithExistingBranch (targetPath branchName : string)
  : M W unit :=
  sh (WorktreeAdd targetPath branchName) ;;;
  console_log ("Created worktree with existing branch: " ++ targetPath) ;;;
  currentBranch <- getCurrentBranch (Some targetPath) ;;
  console_log ("On branch: " ++ currentBranch) ;;;
  switchToDirectory targetPath None.

Definition createWorktreeWithNewBranch
  (targetPath branchName mainBranch : string) : M W unit :=
  sh (WorktreeAddNew targetPath mainBranch branchName) ;;;
  console_log ("Created and switched to new worktree: " ++ targetPath) ;;;
  console_log ("Created new branch '" ++ branchName ++ "' from '"
               ++ mainBranch ++ "'") ;;;
  currentBranch <- getCurrentBranch (Some targetPath) ;;
  console_log ("On branch: " ++ currentBranch) ;;;
  switchToDirectory targetPath None.

(** The [try ... catch] of [main]: any error is reported and the process
    exits with 1. *)
Definition add_catch (body : M W unit) : M W unit :=
  try_catch body
    (fun message =>
       console_log "Error managing worktree:" ;;;
       console_error message ;;;
       process_exit 1).

(** [main()] of git-worktree-add.ts; [args] is [process.argv.slice(2)]. *)
Definition add_main (args : list string) : M W unit :=
  match args with
  | [] => console_log "Usage: gwtadd <branch-name>" ;;; process_exit 1
  | branchName :: _ =>
      add_catch
        (validateGitRepository ;;;
         mainBranch <- discoverMainBranch ;;
         worktreePaths <- getWorktreePaths ;;
         worktreeBase <- determineWorktreeBaseM worktreePaths ;;
         let targetPath := (worktreeBase ++ "/" ++ branchName)%string in
         let existingWorktree :=
           find (fun path => String.eqb path targetPath) worktreePaths in
         if Js.truthy_opt existingWorktree then
           switchToExistingWorktree targetPath
         else
           branchExists <- branchExistsLocally branchName ;;
           if branchExists then
             createWorktreeWithExistingBranch targetPath branchName
           else
             createWorktreeWithNewBranch targetPath branchName mainBranch)
  end.

End Add.

(* ===================================================================== *)
(** ** git-worktree-remove.ts *)
(* ===================================================================== *)

Section Remove.

Context {W : Type} {B : Backend W}.

(** [askForConfirmation(message)] *)
Definition askForConfirmation (message : string) : M W bool :=
  try_catch
    (answer <- question (message ++ " (y/N): ") ;;
     ret (String.eqb (Js.toLowerCase answer) "y"
          || String.eqb (Js.toLowerCase answer) "yes"))
    (fun _ => ret false).

Definition msg_not_in_worktree : string :=
  "❌ Error: Not in a git worktree. Use this command from within a worktree directory.".

Definition msg_cancelled : string := "❌ Operation cancelled.".

(** [main()] of git-worktree-remove.ts; [args] is [process.argv.slice(2)]. *)
Definition remove_main (args : list string) : M W unit :=
  try_catch
    (let forceRemove := Js.includes args "--force" || Js.includes args "-f" in
     validateGitRepository ;;;
     isWorktree <- isCurrentDirectoryWorktree ;;
     (if negb isWorktree
      then console_log msg_not_in_worktree ;;; process_exit 1
      else ret tt) ;;;
     currentDir <- getCurrentDirectory ;;
     currentBranch <- getCurrentBranch None ;;
     let worktreeName := Js.last_segment currentDir in
     console_log ("📍 Current worktree: " ++ worktreeName) ;;;
     console_log ("🌿 Current branch: " ++ currentBranch) ;;;
     console_log ("📁 Path: " ++ currentDir) ;;;
     confirmed <-
       (if forceRemove then ret true
        else askForConfirmation
               "⚠️  Are you sure you want to remove this worktree?") ;;
     (if negb confirmed
      then console_log msg_cancelled ;;; process_exit 0
      else ret tt) ;;;
     worktreePaths <- getWorktreePaths ;;
     worktreeBase <- determineWorktreeBaseM worktreePaths ;;
     mainBranch <- discoverMainBranch ;;
     process_chdir worktreeBase ;;;
     console_log ("📂 Changed to main repository: " ++ worktreeBase) ;;;
     console_log ("🌿 Switching to main branch: " ++ mainBranch) ;;;
     try_catch
       (sh (Checkout mainBranch) ;;; ret tt)
       (fun _ =>
          console_log
            "⚠️  Main branch is checked out elsewhere, using detached HEAD instead" ;;;
          sh (CheckoutDetach mainBranch) ;;; ret tt) ;;;
     console_log ("🗑️  Removing worktree: " ++ currentDir) ;;;
     sh (WorktreeRemove currentDir) ;;;
     console_log "✅ Worktree removed successfully" ;;;
     (if forceRemove then switchToDirectory worktreeBase None else ret tt) ;;;
     try_catch
       (mainRepoCurrentBranch <- getCurrentBranch (Some worktreeBase) ;;
        console_log ("🌿 On branch: " ++ mainRepoCurrentBranch) ;;;
        if negb (String.eqb mainRepoCurrentBranch mainBranch)
        then console_log
               ("💡 Tip: You might want to switch to the main branch ("
                ++ mainBranch ++ ")")
        else ret tt)
       (fun _ => console_log "🌿 Switched to main repository"))
    (fun message =>
       console_log "❌ Error removing worktree:" ;;;
       console_error message ;;;
       process_exit 1).

End Remove.

(* ===================================================================== *)
(** ** Reading a trace *)
(* ===================================================================== *)

(** The structured output line that the shell wrapper parses. *)
Definition is_path_line (line : string) : bool :=
  Js.startsWith "WORKTREE_PATH:" line.

(** The git commands of a trace, in order. *)
Definition commands (t : list Event) : list Cmd :=
  flat_map (fun e => match e with EvRun _ c _ => [c] | _ => [] end) t.

(** The git commands of a trace with their replies: the probes. *)
Definition probes (t : list Event) : list (Cmd * Reply) :=
  flat_map (fun e => match e with EvRun _ c r => [(c, r)] | _ => [] end) t.

(** The commands of a trace that change the repository. *)
Definition mutations (t : list Event) : list Cmd :=
  filter mutating (commands t).

(** Standard output, line by line. *)
Definition outputs (t : list Event) : list string :=
  flat_map (fun e => match e with EvOut l => [l] | _ => [] end) t.

(** Standard error. *)
Definition errors (t : list Event) : list string :=
  flat_map (fun e => match e with EvErr l => [l] | _ => [] end) t.

(** The paths of the structured lines of a trace. *)
Definition emitted_paths (t : list Event) : list string :=
  map (Js.drop 14) (filter is_path_line (outputs t)).

(** An event that neither changes the repository, nor is a structured
    line, nor moves the process. *)
Definition benign (e : Event) : bool :=
  match e with
  | EvRun _ c _ => negb (mutating c)
  | EvOut l => negb (is_path_line l)
  | EvErr _ => true
  | EvAsk _ _ => true
  | EvChdir _ _ => false
  end.

(** The two logical commands. *)
Inductive Invocation : Type :=
| Add (args : list string)
| Remove (args : list string).

(** Read-only git queries, and nothing else. *)
Definition query (e : Event) : bool :=
  match e with
  | EvRun _ c _ => negb (mutating c)
  | _ => false
  end.

(** A run that ends well: [main] returns, or the process exits with 0. *)
Definition success {A} (r : Outcome A) : Prop :=
  match r with
  | Done _ => True
  | Exited c => c = 0%Z
  | Thrown _ => False
  end.

(** The answers [askForConfirmation] takes for a yes. *)
Definition affirmative (answer : option string) : bool :=
  match answer with
  | Some a => String.eqb (Js.toLowerCase a) "y"
              || String.eqb (Js.toLowerCase a) "yes"
  | None => false
  end.

(** [--force] or [-f] among the arguments. *)
Definition forced (args : list string) : bool :=
  Js.includes args "--force" || Js.includes args "-f".

(* ===================================================================== *)
(** ** A weakest-precondition reading of scripts *)
(* ===================================================================== *)

Section WP.

Context {W : Type} {B : Backend W}.

(** [wp m Q s]: run from [s], [m] adds the events [d] to the trace and
    ends with an outcome [r] in a state [s'] such that [Q r d s']. *)
Definition wp {A} (m : M W A)
  (Q : Outcome A -> list Event -> State W -> Prop) (s : State W) : Prop :=
  exists d, trace (snd (m s)) = trace s ++ d /\ Q (fst (m s)) d (snd (m s)).

(** A computation all of whose events satisfy [P], that never exits, and
    that leaves the working directory alone. *)
Definition calm {A} (P : Event -> bool) (m : M W A) : Prop :=
  forall s, wp m (fun r d s' =>
                    forallb P d = true /\ cwd s' = cwd s /\
                    match r with Exited _ => False | _ => True end) s.

End WP.

Definition invoke {W : Type} {B : Backend W} (i : Invocation) : M W unit :=
  match i with
  | Add args => add_main args
  | Remove args => remove_main args
  end.

(** The number of structured lines a successful invocation prints. *)
Definition structured_lines (i : Invocation) : nat :=
  match i with
  | Add _ => 1
  | Remove args => if forced args then 1 else 0
  end.

(** What a transition of [add] has done when [main] is over: the commands
    [ms] that change the repository were issued; a run that returns has
    printed the structured line of [targetPath], once; any other run has
    exited with 1 and printed none. *)
Definition transition_post (targetPath : string) (ms : list Cmd)
  (r : Outcome unit) (d : list Event) : Prop :=
  mutations d = ms /\
  match r with
  | Done _ => emitted_paths d = [targetPath]
  | Exited c => c = 1%Z /\ emitted_paths d = []
  | Thrown _ => False
  end.


(** The failure kinds of the error taxonomy that [remove] can report. *)
Inductive FailureKind : Type :=
| NotARepository
| NotInWorktree
| BackendUnavailable.

(** How a run of [remove] reports its failure, read off the end of its
    trace: the line of the refusal, or the heading of the [catch] block
    followed by the message of the error on standard error. *)
Definition reported_failure (t : list Event) : option FailureKind :=
  match rev t with
  | EvOut l :: _ =>
      if String.eqb l msg_not_in_worktree then Some NotInWorktree else None
  | EvErr m :: EvOut l :: _ =>
      if String.eqb l "❌ Error removing worktree:"
      then Some (if String.eqb m "Not in a git repository"
                 then NotARepository else BackendUnavailable)
      else None
  | _ => None
  end.

(** The prompt of the confirmation. *)
Definition confirm_prompt : string :=
  "⚠️  Are you sure you want to remove this worktree? (y/N): ".


(* ===================================================================== *)
(** ** The resolution chain of the main branch, in the words of the spec *)
(* ===================================================================== *)

(** Step 1: the symbolic default-branch pointer of the remote is present
    and resolves to a branch name. *)
Definition remote_default (r : Reply) : option string :=
  match r with
  | Ok out =>
      match Js.trim out with
      | EmptyString => None
      | pointer => Js.match_after "refs/remotes/origin/" pointer
      end
  | Failed _ => None
  end.

(** Step 3: the first entry of the local branch listing, without its
    leading selection marker. *)
Definition first_listed (r : Reply) : option string :=
  match r with
  | Ok out =>
      match Js.strip_marker (hd EmptyString (Js.split Js.LF (Js.trim out))) with
      | EmptyString => None
      | b => Some b
      end
  | Failed _ => None
  end.

(** The probes of conventional names that found nothing: for each name,
    in order, the local check and then the remote-tracking check, both
    failing. *)
Inductive Misses : list string -> list (Cmd * Reply) -> Prop :=
| misses_nil : Misses [] []
| misses_cons b e1 e2 names ps :
    Misses names ps ->
    Misses (b :: names)
           ((ShowRefLocal b, Failed e1) :: (ShowRefRemote b, Failed e2) :: ps).

(** [Chain ps b]: the probes [ps] were made, in this order, and the
    first match of the chain is [b]. *)
Inductive Chain : list (Cmd * Reply) -> string -> Prop :=
| chain_remote_default r b :
    remote_default r = Some b ->
    Chain [(RemoteHead, r)] b
| chain_local r before b after ms out :
    remote_default r = None ->
    commonMainBranches = before ++ b :: after ->
    Misses before ms ->
    Chain ((RemoteHead, r) :: ms ++ [(ShowRefLocal b, Ok out)]) b
| chain_remote_tracking r before b after ms e out :
    remote_default r = None ->
    commonMainBranches = before ++ b :: after ->
    Misses before ms ->
    Chain ((RemoteHead, r) :: ms ++
           [(ShowRefLocal b, Failed e); (ShowRefRemote b, Ok out)]) b
| chain_first_listed r ms listing b :
    remote_default r = None ->
    Misses commonMainBranches ms ->
    first_listed listing = Some b ->
    Chain ((RemoteHead, r) :: ms ++ [(BranchList, listing)]) b
| chain_fallback r ms listing :
    remote_default r = None ->
    Misses commonMainBranches ms ->
    first_listed listing = None ->
    Chain ((RemoteHead, r) :: ms ++ [(BranchList, listing)]) "main".

(* ===================================================================== *)
(** ** A scripted backend, to run the scripts on concrete repositories *)
(* ===================================================================== *)

(** The backend answers from a table: [git dir c] is the reply to [c] run
    in [dir], [answer] is what the user types, [dirs] are the directories
    that exist. *)
Definition scripted (git : string -> Cmd -> Reply) (answer : option string)
  (dirs : list string) : Backend unit :=
  {| run dir c w := (git dir c, w);
     ask _ w := (answer, w);
     can_chdir path _ := Js.includes dirs path |}.

Definition start (dir : string) : State unit := mkState tt dir [].

(** A repository at [/repo], on branch [main], with a second local branch
    [existing] and a linked worktree [/repo/feature] on branch [feature];
    no remote. *)
Definition repo_git (dir : string) (c : Cmd) : Reply :=
  match c with
  | GitDir => Ok (".git" ++ Js.nl)
  | RemoteHead => Ok Js.nl
  | ShowRefLocal b =>
      if Js.includes ["main"; "existing"; "feature"] b
      then Ok EmptyString else Failed "exit code: 1"
  | ShowRefRemote _ => Failed "exit code: 1"
  | BranchList =>
      Ok ("  existing" ++ Js.nl ++ "+ feature" ++ Js.nl ++ "* main" ++ Js.nl)
  | WorktreeList =>
      Ok ("/repo          abc1234 [main]" ++ Js.nl ++
          "/repo/feature  def5678 [feature]" ++ Js.nl)
  | WorktreeAdd _ _ | WorktreeAddNew _ _ _ => Ok EmptyString
  | ShowCurrent None =>
      Ok ((if String.eqb dir "/repo" then "main" else Js.last_segment dir)
          ++ Js.nl)
  | ShowCurrent (Some d) =>
      Ok ((if String.eqb d "/repo" then "main" else Js.last_segment d)
          ++ Js.nl)
  | Checkout _ | CheckoutDetach _ => Ok EmptyString
  | WorktreeRemove _ => Ok EmptyString
  end.

Definition repo_dirs : list string := ["/repo"; "/repo/feature"].

(** The same repository with [main] checked out in another worktree, as
    seen from [/repo]: a plain checkout of [main] is refused. *)
Definition busy_git (dir : string) (c : Cmd) : Reply :=
  match c with
  | Checkout _ =>
      Failed "fatal: 'main' is already checked out at '/repo/other'"
  | _ => repo_git dir c
  end.

(** The same repository when [git worktree list] fails. *)
Definition broken_git (dir : string) (c : Cmd) : Reply :=
  match c with
  | WorktreeList => Failed "fatal: unable to read worktree list"
  | _ => repo_git dir c
  end.

(** A clone whose remote names [trunk] as its default branch. *)
Definition cloned_git (dir : string) (c : Cmd) : Reply :=
  match c with
  | RemoteHead => Ok ("refs/remotes/origin/trunk" ++ Js.nl)
  | _ => repo_git dir c
  end.

(** A repository just initialised: no remote, no branch yet. *)
Definition fresh_git (dir : string) (c : Cmd) : Reply :=
  match c with
  | GitDir => Ok (".git" ++ Js.nl)
  | RemoteHead => Ok Js.nl
  | BranchList => Ok EmptyString
  | _ => Failed "exit code: 1"
  end.

(** A repository whose only branches are [topic] and [wip], on [wip]. *)
Definition odd_git (dir : string) (c : Cmd) : Reply :=
  match c with
  | BranchList => Ok ("  topic" ++ Js.nl ++ "* wip" ++ Js.nl)
  | _ => fresh_git dir c
  end.

Definition repo : Backend unit := scripted repo_git None repo_dirs.
Definition repo_yes : Backend unit := scripted repo_git (Some "y") repo_dirs.
Definition busy : Backend unit := scripted busy_git None repo_dirs.
Definition broken : Backend unit := scripted broken_git None repo_dirs.

(** The states a run in [dir] goes through in that repository: after the
    validation, after the resolution of the main branch, after the
    listing of the worktrees. *)
Definition listing : string :=
  ("/repo          abc1234 [main]" ++ Js.nl ++
   "/repo/feature  def5678 [feature]" ++ Js.nl)%string.

Definition validated (dir : string) : State unit :=
  mkState tt dir [EvRun dir GitDir (Ok (".git" ++ Js.nl))].

Definition resolved (dir : string) : State unit :=
  mkState tt dir
    (trace (validated dir) ++
     [EvRun dir RemoteHead (Ok Js.nl);
      EvRun dir (ShowRefLocal "main") (Ok EmptyString);
      EvOut "Using main branch: main"]).

Definition listed (s : State unit) : State unit :=
  mkState tt (cwd s) (trace s ++ [EvRun (cwd s) WorktreeList (Ok listing)]).



(** A bare repository [/repos/project.git] with one worktree. *)
Definition bare_paths : list string := ["/repos/project.git"; "/repos/main"].

(** What the sentence of the data model about a standard-style setup can
    mean: the entry that comes first in the lexicographic order of the
    code units, or first in the order by length and then lexicographic. *)
Definition shortlex_leb (a b : string) : bool :=
  ((String.length a <? String.length b)%nat
   || ((String.length a =? String.length b)%nat && String.leb a b)).

Definition lexicographically_first (ps : list string) (b : string) : Prop :=
  In b ps /\ forall q, In q ps -> String.leb b q = true.

Definition shortlex_first (ps : list string) (b : string) : Prop :=
  In b ps /\ forall q, In q ps -> shortlex_leb b q = true.

(** What the code computes for a standard-style setup: the first entry, in
    input order, among those of minimum length. *)
Definition first_shortest (ps : list string) (b : string) : Prop :=
  exists pre post,
    ps = pre ++ b :: post /\
    (forall q, In q pre -> String.length b < String.length q) /\
    (forall q, In q post -> String.length b <= String.length q).

(** No path of a standard-style (non-bare) entry set ends in [.git]. *)
Definition standard_style (ps : list string) : Prop :=
  forall p, In p ps -> Js.endsWith ".git" p = false.

(* ===================================================================== *)
(** ** Characters of a string, and the output format of git *)
(* ===================================================================== *)

(** Some character of the string satisfies [P]. *)
Fixpoint any_char (P : ascii -> bool) (s : string) : bool :=
  match s with
  | EmptyString => false
  | String c r => P c || any_char P r
  end.





(** The heading under which a script reports an error it caught. *)
Definition error_heading (i : Invocation) : string :=
  match i with
  | Add _ => "Error managing worktree:"
  | Remove _ => "❌ Error removing worktree:"
  end.



(** The spellings that lower-case to [y] or [yes]. *)
Definition yes_spellings : list string :=
  ["y"; "Y"; "yes"; "yeS"; "yEs"; "yES"; "Yes"; "YeS"; "YEs"; "YES"].

(* ===================================================================== *)
(** ** What a whole run has done *)
(* ===================================================================== *)

(** A read-only git query or an ordinary line of standard output. *)
Definition probing (e : Event) : bool :=
  match e with
  | EvRun _ c _ => negb (mutating c)
  | EvOut l => negb (is_path_line l)
  | _ => false
  end.

(** Neither a prompt nor a change of directory. *)
Definition stays_put (e : Event) : Prop :=
  match e with
  | EvAsk _ _ | EvChdir _ _ => False
  | _ => True
  end.

(** What a run of [add] with arguments [args] from state [s] has done
    when it ends with [r] in [s'], having added the events [d]. *)
Definition add_post {W : Type} (args : list string) (s : State W)
  (r : Outcome unit) (d : list Event) (s' : State W) : Prop :=
  cwd s' = cwd s
  /\ (forall e, In e d -> stays_put e)
  /\ (mutations d = []
      \/ exists base mainBranch branchName rest,
           args = branchName :: rest
           /\ (mutations d
               = [WorktreeAdd (base ++ "/" ++ branchName) branchName]
               \/ mutations d
                  = [WorktreeAddNew (base ++ "/" ++ branchName)
                       mainBranch branchName]))
  /\ (r = Done tt ->
      errors d = []
      /\ (forall dir c m,
            In (EvRun dir c (Failed m)) d -> mutating c = false)
      /\ exists base branchName rest,
           args = branchName :: rest
           /\ emitted_paths d = [(base ++ "/" ++ branchName)%string])
  /\ (r <> Done tt ->
      r = Exited 1 /\ emitted_paths d = []
      /\ (args <> [] ->
          exists message,
            errors d = [message]
            /\ forall dir c m,
                 In (EvRun dir c (Failed m)) d -> mutating c = true ->
                 m = message)).

(** The sequences of commands changing the repository that a run of
    [remove] started in [currentDir] may have issued. *)
Definition remove_sequences (currentDir mainBranch : string) : list (list Cmd) :=
  [[];
   [Checkout mainBranch];
   [Checkout mainBranch; CheckoutDetach mainBranch];
   [Checkout mainBranch; WorktreeRemove currentDir];
   [Checkout mainBranch; CheckoutDetach mainBranch; WorktreeRemove currentDir]].

(** What a run of [remove] with arguments [args] from state [s] has
    done when it ends with [r] in [s'], having added the events [d]. *)
Definition remove_post {W : Type} (args : list string) (s : State W)
  (r : Outcome unit) (d : list Event) (s' : State W) : Prop :=
  (forall dir c reply,
     In (EvRun dir c reply) d -> mutating c = true ->
     In (EvChdir dir true) d)
  /\ (forced args = true -> forall prompt a, ~ In (EvAsk prompt a) d)
  /\ (mutations d <> [] ->
      forced args = true
      \/ exists a, In (EvAsk confirm_prompt a) d /\ affirmative a = true)
  /\ (exists mainBranch,
        In (mutations d) (remove_sequences (cwd s) mainBranch))
  /\ (r = Done tt ->
      In (WorktreeRemove (cwd s)) (mutations d)
      /\ errors d = []
      /\ In (EvChdir (cwd s') true) d
      /\ emitted_paths d = if forced args then [cwd s'] else [])
  /\ (r <> Done tt ->
      emitted_paths d = []
      /\ ((r = Exited 0 /\ mutations d = [] /\ errors d = [])
          \/ (r = Exited 1
              /\ ((mutations d = [] /\ errors d = [])
                  \/ exists message, errors d = [message])))).

(** The events of a trace that are not probing. *)
Definition explicit_part (d : list Event) : list Event :=
  filter (fun e => negb (probing e)) d.

(* ===================================================================== *)
(** ** git-worktree.ts, the script before the utilities were split off *)
(* ===================================================================== *)

(** The script carries its own copies of [validateGitRepository],
    [discoverMainBranch], [getWorktreePaths], [determineWorktreeBase] and
    [branchExistsLocally]; their text is that of the utilities, and the
    definitions above stand for both.  The three functions below and
    [main] are its own: they run [git -C targetPath branch --show-current]
    and print the structured line themselves. *)
Module Legacy.

Section Script.

Context {W : Type} {B : Backend W}.

Definition switchToExistingWorktree (targetPath : string) : M W unit :=
  console_log ("Switched to existing worktree: " ++ targetPath) ;;;
  currentBranch <- sh (ShowCurrent (Some targetPath)) ;;
  console_log ("On branch: " ++ Js.trim currentBranch) ;;;
  console_log ("WORKTREE_PATH:" ++ targetPath).

Definition createWorktreeWithExistingBranch (targetPath branchName : string)
  : M W unit :=
  sh (WorktreeAdd targetPath branchName) ;;;
  console_log ("Created worktree with existing branch: " ++ targetPath) ;;;
  currentBranch <- sh (ShowCurrent (Some targetPath)) ;;
  console_log ("On branch: " ++ Js.trim currentBranch) ;;;
  console_log ("WORKTREE_PATH:" ++ targetPath).

Definition createWorktreeWithNewBranch
  (targetPath branchName mainBranch : string) : M W unit :=
  sh (WorktreeAddNew targetPath mainBranch branchName) ;;;
  console_log ("Created and switched to new worktree: " ++ targetPath) ;;;
  console_log ("Created new branch '" ++ branchName ++ "' from '"
               ++ mainBranch ++ "'") ;;;
  currentBranch <- sh (ShowCurrent (Some targetPath)) ;;
  console_log ("On branch: " ++ Js.trim currentBranch) ;;;
  console_log ("WORKTREE_PATH:" ++ targetPath).

(** [main()] of git-worktree.ts; [args] is [process.argv.slice(2)]. *)
Definition main (args : list string) : M W unit :=
  match args with
  | [] => console_log "Usage: gwt <branch-name>" ;;; process_exit 1
  | branchName :: _ =>
      try_catch
        (validateGitRepository ;;;
         mainBranch <- discoverMainBranch ;;
         worktreePaths <- getWorktreePaths ;;
         worktreeBase <- determineWorktreeBaseM worktreePaths ;;
         let targetPath := (worktreeBase ++ "/" ++ branchName)%string in
         let existingWorktree :=
           find (fun path => String.eqb path targetPath) worktreePaths in
         if Js.truthy_opt existingWorktree then
           switchToExistingWorktree targetPath
         else
           branchExists <- branchExistsLocally branchName ;;
           if branchExists then
             createWorktreeWithExistingBranch targetPath branchName
           else
             createWorktreeWithNewBranch targetPath branchName mainBranch)
        (fun message =>
           console_log "Error managing worktree:" ;;;
           console_error message ;;;
           process_exit 1)
  end.

End Script.

End Legacy.


(* ===================================================================== *)
(** ** Strings: search *)
(* ===================================================================== *)

(** [text.includes(pattern)] on strings. *)
Fixpoint str_includes (text pattern : string) : bool :=
  Js.startsWith pattern text
  || match text with
     | EmptyString => false
     | String _ rest => str_includes rest pattern
     end.

(* ===================================================================== *)
(** ** The init script *)
(* ===================================================================== *)

(** The script adds a [source] line for [src/bash-functionality.sh] to
    [~/.zshrc].  Its two paths are [join(homedir(), ".zshrc")] and
    [scriptPath = join(process.cwd(), "src/bash-functionality.sh")]; the
    model takes [scriptPath] as it is after the join, and keeps of the
    file system what the script reads and writes. *)
Module Init.

(** [~/.zshrc]: not there, there with a content, or there and not
    readable, [readFileSync] throwing an error with [message]. *)
Inductive File : Type :=
| Missing
| Holds (content : string)
| Unreadable (message : string).

Record Disk : Type := mkDisk {
  script_exists : bool;          (* [existsSync(scriptPath)] *)
  zshrc : File;
  write_error : option string    (* the error of [writeFileSync], if any *)
}.

Definition existsSync_script : M Disk bool :=
  fun s => (Done (script_exists (world s)), s).

Definition existsSync_zshrc : M Disk bool :=
  fun s =>
    (Done match zshrc (world s) with Missing => false | _ => true end, s).

(** [readFileSync(zshrcPath, "utf8")]; the message for a missing file
    stands for the one of Node, the script never reads a missing file. *)
Definition readFileSync_zshrc : M Disk string :=
  fun s =>
    match zshrc (world s) with
    | Holds content => (Done content, s)
    | Unreadable message => (Thrown message, s)
    | Missing => (Thrown "ENOENT: no such file or directory", s)
    end.

(** [writeFileSync(zshrcPath, content)]: all or nothing. *)
Definition writeFileSync_zshrc (content : string) : M Disk unit :=
  fun s =>
    match write_error (world s) with
    | Some message => (Thrown message, s)
    | None =>
        (Done tt,
         mkState (mkDisk (script_exists (world s)) (Holds content) None)
                 (cwd s) (trace s))
    end.

(** The double quote. *)
Definition dquote : string := String (ascii_of_nat 34) EmptyString.

Definition sourceCommand (scriptPath : string) : string :=
  ("source " ++ dquote ++ scriptPath ++ dquote)%string.

Definition commentLine : string := "# @mikko/scripts bash functionality".

Definition newContent (scriptPath zshrcContent : string) : string :=
  ((zshrcContent
    ++ (if Js.endsWith Js.nl zshrcContent then EmptyString else Js.nl))
   ++ Js.nl ++ commentLine ++ Js.nl ++ sourceCommand scriptPath ++ Js.nl)%string.

Definition msg_already : string :=
  "⚠️ bash-functionality.sh already sourced in ~/.zshrc".

(** [main()] with the [catch] of its call. *)
Definition main (scriptPath : string) : M Disk unit :=
  try_catch
    (console_log "💫 Initializing @mikko/scripts..." ;;;
     present <- existsSync_script ;;
     (if negb present
      then console_error "L Error: src/bash-functionality.sh not found" ;;;
           process_exit 1
      else ret tt) ;;;
     there <- existsSync_zshrc ;;
     zshrcContent <- (if there then readFileSync_zshrc else ret EmptyString) ;;
     if str_includes zshrcContent (sourceCommand scriptPath) then
       console_log msg_already
     else
       writeFileSync_zshrc (newContent scriptPath zshrcContent) ;;;
       console_log "✅ Added bash-functionality.sh to ~/.zshrc" ;;;
       console_log
         "=� Run `source ~/.zshrc` or restart your terminal to load the functions")
    (fun message =>
       console_error ("L Error: " ++ message) ;;;
       process_exit 1).

End Init.

(** The content the script works on: empty when the file is missing. *)
Definition content_of (f : Init.File) : option string :=
  match f with
  | Init.Missing => Some EmptyString
  | Init.Holds c => Some c
  | Init.Unreadable _ => None
  end.


(* ===================================================================== *)
(** ** git-worktree-completion.ts *)
(* ===================================================================== *)

(** The script runs three git commands that only read the repository;
    the model takes their replies.  Its search for the base directory is
    the text of [determineWorktreeBase], whose definition stands for it. *)
Module Completion.

Record Replies : Type := mkReplies {
  gitDir : Reply;            (* [git rev-parse --git-dir] *)
  worktreeList : Reply;      (* [git worktree list] *)
  remoteBranches : Reply     (* [git branch -r] *)
}.

(** The match of [/^.*origin\//] in [s], as what follows it: [.*] is
    greedy and stops at a line terminator, so that the match ends with
    the last [origin/] that only such characters separate from the
    start. *)
Fixpoint after_origin (s : string) : option string :=
  match s with
  | EmptyString => None
  | String c r =>
      match (if Js.is_line_terminator c then None else after_origin r) with
      | Some rest => Some rest
      | None =>
          if Js.startsWith "origin/" s then Some (Js.drop 7 s) else None
      end
  end.

(** [line.replace(/^.*origin\//, "")] *)
Definition strip_origin (line : string) : string :=
  match after_origin line with
  | Some rest => rest
  | None => line
  end.

(** The names pushed by the loop over the worktree paths. *)
Definition worktreeNames (worktreePaths : list string) (worktreeBase : string)
  : list string :=
  flat_map
    (fun path =>
       if negb (String.eqb path worktreeBase)
          && (0 <? String.length path)%nat
       then
         let worktreeName := Js.last_segment path in
         if Js.truthy worktreeName then [worktreeName] else []
       else [])
    worktreePaths.

(** The remote branches read off the output of [git branch -r]. *)
Definition branchNames (stdout : string) : list string :=
  filter (fun branch => (0 <? String.length branch)%nat)
    (map strip_origin
       (filter (fun line => negb (str_includes line "HEAD"))
          (map Js.trim (Js.split Js.LF (Js.trim stdout))))).

(** [[...new Set(xs)]]: the first occurrences, in order. *)
Fixpoint unique_from (seen xs : list string) : list string :=
  match xs with
  | [] => []
  | x :: rest =>
      if Js.includes seen x then unique_from seen rest
      else x :: unique_from (x :: seen) rest
  end.

Definition unique (xs : list string) : list string := unique_from [] xs.

(** [xs.sort()]: the default order, by code units.  On strings that are
    all different every sorting algorithm gives the same array; this one
    inserts. *)
Fixpoint insert (x : string) (sorted : list string) : list string :=
  match sorted with
  | [] => [x]
  | y :: rest =>
      if String.leb x y then x :: sorted else y :: insert x rest
  end.

Definition sort (xs : list string) : list string := fold_right insert [] xs.

(** [getCompletionOptions()]; the [TypeError] of [reduce] on an empty
    array is caught by the outer [catch] as any other error. *)
Definition getCompletionOptions (r : Replies) : list string :=
  match gitDir r with
  | Failed _ => []
  | Ok _ =>
      match worktreeList r with
      | Failed _ => []
      | Ok stdout =>
          let worktreePaths := parse_worktree_list stdout in
          match determineWorktreeBase worktreePaths with
          | None => []
          | Some worktreeBase =>
              let completionOptions :=
                worktreeNames worktreePaths worktreeBase
                ++ match remoteBranches r with
                   | Ok branches => branchNames branches
                   | Failed _ => []
                   end in
              sort (unique completionOptions)
          end
      end
  end.

(** [main()]: one line of standard output for each option.  Its [catch]
    is never entered, [getCompletionOptions] returning in every case. *)
Definition main (r : Replies) : Outcome unit * list Event :=
  (Done tt, map EvOut (getCompletionOptions r)).

End Completion.

(** Each string is below the next one, and differs from it. *)
Definition strictly_sorted (xs : list string) : Prop :=
  forall before a b after,
    xs = before ++ a :: b :: after -> String.leb a b = true /\ a <> b.

(** [strictly_sorted], one element at a time: [x] is below the head of
    [xs], if there is one. *)
Definition below_head (x : string) (xs : list string) : Prop :=
  match xs with
  | [] => True
  | y :: _ => String.leb x y = true /\ x <> y
  end.

Inductive Chained : list string -> Prop :=
| Chained_nil : Chained []
| Chained_cons x xs : below_head x xs -> Chained xs -> Chained (x :: xs).

(* ===================================================================== *)
(** * Properties *)
(* ===================================================================== *)

(** ** The model at work *)

Example trim_example : Js.trim ("  a b " ++ Js.nl) = "a b".
Proof. reflexivity. Qed.

Example split_example : Js.split "/" "/repo/feature" = [EmptyString; "repo"; "feature"].
Proof. reflexivity. Qed.

Example strip_marker_examples :
  Js.strip_marker "* main" = "main"
  /\ Js.strip_marker "topic" = "topic"
  /\ Js.strip_marker "+ feature" = "+ feature".
Proof. repeat split. Qed.

Example match_after_examples :
  Js.match_after "refs/remotes/origin/" "refs/remotes/origin/release/1.x"
  = Some "release/1.x"
  /\ Js.match_after "refs/remotes/origin/" "refs/remotes/origin/" = None
  /\ Js.match_after "refs/remotes/origin/" "refs/heads/main" = None.
Proof. repeat split. Qed.

Example remove_at_end_examples :
  Js.remove_at_end "/.git" "/srv/project/.git" = "/srv/project"
  /\ Js.remove_at_end "/.git" "/repos/project.git" = "/repos/project.git".
Proof. repeat split. Qed.

Example parse_worktree_list_example :
  parse_worktree_list listing = ["/repo"; "/repo/feature"].
Proof. reflexivity. Qed.

Example determineWorktreeBase_examples :
  determineWorktreeBase ["/repo/main"; "/repo"; "/rep2"] = Some "/repo"
  /\ determineWorktreeBase ["/srv/project/x"; "/srv/project/.git"]
     = Some "/srv/project"
  /\ determineWorktreeBase [] = None.
Proof. repeat split. Qed.

Example discoverMainBranch_examples :
  fst (discoverMainBranch (B:=scripted cloned_git None []) (start "/repo"))
  = Done "trunk"
  /\ fst (discoverMainBranch (B:=repo) (start "/repo")) = Done "main"
  /\ fst (discoverMainBranch (B:=scripted odd_git None []) (start "/repo"))
     = Done "topic"
  /\ fst (discoverMainBranch (B:=scripted fresh_git None []) (start "/repo"))
     = Done "main"
  /\ length (probes (trace (snd (discoverMainBranch
                                  (B:=scripted fresh_git None [])
                                  (start "/repo"))))) = 10.
Proof. repeat split. Qed.

Example chain_example :
  Chain [(RemoteHead, Ok Js.nl);
         (ShowRefLocal "main", Failed "exit code: 1");
         (ShowRefRemote "main", Failed "exit code: 1");
         (ShowRefLocal "develop", Failed "exit code: 1");
         (ShowRefRemote "develop", Ok EmptyString)] "develop".
Proof.
  apply (chain_remote_tracking (Ok Js.nl) ["main"] "develop" ["dev"; "master"]
           [(ShowRefLocal "main", Failed "exit code: 1");
            (ShowRefRemote "main", Failed "exit code: 1")]);
    [reflexivity|reflexivity|repeat constructor].
Qed.

Example add_examples :
  mutations (trace (snd (add_main (B:=repo) ["feature"] (start "/repo")))) = []
  /\ mutations (trace (snd (add_main (B:=repo) ["existing"] (start "/repo"))))
     = [WorktreeAdd "/repo/existing" "existing"]
  /\ mutations (trace (snd (add_main (B:=repo) ["brandnew"] (start "/repo"))))
     = [WorktreeAddNew "/repo/brandnew" "main" "brandnew"]
  /\ emitted_paths (trace (snd (add_main (B:=repo) ["brandnew"] (start "/repo"))))
     = ["/repo/brandnew"]
  /\ fst (add_main (B:=repo) [] (start "/repo")) = Exited 1.
Proof. repeat split. Qed.

Example forced_remove_example :
  fst (remove_main (B:=repo) ["--force"] (start "/repo/feature")) = Done tt
  /\ mutations (trace (snd (remove_main (B:=repo) ["--force"]
                              (start "/repo/feature"))))
     = [Checkout "main"; WorktreeRemove "/repo/feature"]
  /\ emitted_paths (trace (snd (remove_main (B:=repo) ["--force"]
                                  (start "/repo/feature"))))
     = ["/repo"].
Proof. repeat split. Qed.

(** ** Strings *)

Lemma endsWith_truthy suffix p :
  Js.truthy suffix = true -> Js.endsWith suffix p = true -> Js.truthy p = true.
Proof.
  destruct p as [|c r]; [|reflexivity].
  destruct suffix; simpl; intros Hs H; [discriminate Hs|discriminate H].
Qed.

Lemma remove_at_end_absent suffix s :
  Js.endsWith suffix s = false -> Js.remove_at_end suffix s = s.
Proof.
  induction s as [|c r IH]; simpl; intros H;
    apply orb_false_iff in H; destruct H as [Heq Hr]; rewrite Heq.
  - reflexivity.
  - now rewrite IH.
Qed.

Lemma remove_at_end_present suffix s :
  Js.endsWith suffix s = true ->
  s = (Js.remove_at_end suffix s ++ suffix)%string.
Proof.
  induction s as [|c r IH]; intros H.
  - destruct suffix; [reflexivity|discriminate H].
  - cbn [Js.endsWith Js.remove_at_end] in *.
    destruct (String.eqb_spec (String c r) suffix) as [E|E]; [exact E|].
    cbn in H |- *. f_equal. now apply IH.
Qed.

Lemma includes_In xs x : Js.includes xs x = true <-> In x xs.
Proof.
  unfold Js.includes. rewrite existsb_exists. split.
  - intros [y [Hy E]]. apply String.eqb_eq in E. now subst.
  - intros H. exists x. split; [exact H|apply String.eqb_refl].
Qed.

Lemma find_eqb_truthy (target : string) xs :
  Js.truthy target = true ->
  (Js.truthy_opt (find (fun p => String.eqb p target) xs) = true <-> In target xs).
Proof.
  intros Ht. induction xs as [|x xs IH]; simpl.
  - split; [discriminate|tauto].
  - destruct (String.eqb_spec x target) as [E|E].
    + subst. simpl. rewrite Ht. tauto.
    + rewrite IH. split; [tauto|intros [H|H]; [contradiction|exact H]].
Qed.

Lemma truthy_path base branchName :
  Js.truthy (base ++ "/" ++ branchName)%string = true.
Proof. induction base; reflexivity. Qed.

(** ** determineWorktreeBase *)

Lemma determineWorktreeBase_bare ps p :
  find (Js.endsWith ".git") ps = Some p ->
  determineWorktreeBase ps = Some (Js.remove_at_end "/.git" p).
Proof.
  intros H. unfold determineWorktreeBase. rewrite H. simpl.
  apply find_some in H. destruct H as [_ H].
  now rewrite (endsWith_truthy ".git" p eq_refl H).
Qed.

(** A bare repository kept in a directory named [.git]: the base is its
    parent. *)
Lemma determineWorktreeBase_bare_parent ps p :
  find (Js.endsWith ".git") ps = Some p ->
  Js.endsWith "/.git" p = true ->
  exists parent,
    p = (parent ++ "/.git")%string /\ determineWorktreeBase ps = Some parent.
Proof.
  intros Hfind Hslash. exists (Js.remove_at_end "/.git" p). split.
  - now apply remove_at_end_present.
  - now apply determineWorktreeBase_bare.
Qed.

Lemma determineWorktreeBase_standard ps :
  standard_style ps -> determineWorktreeBase ps = reduce shorter ps.
Proof.
  intros H. unfold determineWorktreeBase.
  destruct (find (Js.endsWith ".git") ps) as [p|] eqn:E; [|reflexivity].
  apply find_some in E. destruct E as [Hin Hp].
  rewrite (H p Hin) in Hp. discriminate.
Qed.

Lemma first_shortest_single b : first_shortest [b] b.
Proof. exists [], []. simpl. repeat split; intros q []. Qed.

Lemma first_shortest_step seen acc x :
  first_shortest seen acc -> first_shortest (seen ++ [x]) (shorter acc x).
Proof.
  intros (pre & post & E & Hpre & Hpost). unfold shorter.
  destruct (Nat.ltb_spec (String.length x) (String.length acc)) as [Hlt|Hge].
  - exists seen, []. split; [reflexivity|]. split; [|intros q []].
    intros q Hq. subst seen. apply in_app_or in Hq.
    destruct Hq as [Hq|[Hq|Hq]].
    + specialize (Hpre q Hq). lia.
    + subst q. exact Hlt.
    + specialize (Hpost q Hq). lia.
  - exists pre, (post ++ [x]). split.
    + subst seen. now rewrite <- app_assoc.
    + split; [exact Hpre|]. intros q Hq. apply in_app_or in Hq.
      destruct Hq as [Hq|[Hq|[]]]; [now apply Hpost|subst q; exact Hge].
Qed.

Lemma first_shortest_fold rest : forall seen acc,
  first_shortest seen acc ->
  first_shortest (seen ++ rest) (fold_left shorter rest acc).
Proof.
  induction rest as [|x rest IH]; intros seen acc H; simpl.
  - now rewrite app_nil_r.
  - replace (seen ++ x :: rest) with ((seen ++ [x]) ++ rest)
      by now rewrite <- app_assoc.
    apply IH. now apply first_shortest_step.
Qed.

Lemma reduce_shorter_first_shortest ps :
  ps <> [] -> exists b, reduce shorter ps = Some b /\ first_shortest ps b.
Proof.
  destruct ps as [|p rest]; [congruence|]. intros _.
  exists (fold_left shorter rest p). split; [reflexivity|].
  apply (first_shortest_fold rest [p] p), first_shortest_single.
Qed.

Lemma determineWorktreeBase_defined ps :
  ps <> [] -> exists b, determineWorktreeBase ps = Some b.
Proof.
  intros H. destruct (find (Js.endsWith ".git") ps) as [p|] eqn:E.
  - eexists. apply determineWorktreeBase_bare. exact E.
  - unfold determineWorktreeBase. rewrite E. simpl.
    destruct ps; [congruence|]. now eexists.
Qed.

(** C3.  The code run on a bare repository whose directory is named
    [project.git]: the path is recognised as bare by its [.git] ending,
    and comes back whole, still with that ending; it is neither the
    parent directory nor the shortest entry. *)
Theorem determineWorktreeBase_keeps_dot_git :
  determineWorktreeBase bare_paths = Some "/repos/project.git"
  /\ find (Js.endsWith ".git") bare_paths = Some "/repos/project.git"
  /\ Js.endsWith ".git" "/repos/project.git" = true
  /\ first_shortest bare_paths "/repos/main".
Proof.
  repeat split.
  exists ["/repos/project.git"], []. repeat split.
  - intros q [E|[]]. subst q. simpl. lia.
  - intros q [].
Qed.

(** C9 (as amended).  For a non-empty standard-style entry set the base is
    the first entry, in input order, among the entries of minimum path
    length. *)
Theorem determineWorktreeBase_standard_first_shortest ps :
  ps <> [] -> standard_style ps ->
  exists b, determineWorktreeBase ps = Some b /\ first_shortest ps b.
Proof.
  intros Hne Hstd. rewrite (determineWorktreeBase_standard ps Hstd).
  now apply reduce_shorter_first_shortest.
Qed.

Lemma determineWorktreeBase_standard_first_shortest_witness :
  ["/repo/feature"; "/repo"; "/rep2"] <> []
  /\ standard_style ["/repo/feature"; "/repo"; "/rep2"]
  /\ exists b, determineWorktreeBase ["/repo/feature"; "/repo"; "/rep2"] = Some b
               /\ first_shortest ["/repo/feature"; "/repo"; "/rep2"] b.
Proof.
  assert (Hne : ["/repo/feature"; "/repo"; "/rep2"] <> []) by discriminate.
  assert (Hstd : standard_style ["/repo/feature"; "/repo"; "/rep2"]).
  { intros p [E|[E|[E|[]]]]; subst p; reflexivity. }
  split; [exact Hne|]. split; [exact Hstd|].
  exact (determineWorktreeBase_standard_first_shortest _ Hne Hstd).
Defined.

(** C9, refuted as written.  On the standard-style set [/repo/b], [/repo/a]
    the base is [/repo/b], which is not the lexicographically first entry,
    neither in the plain order nor in the order by length first. *)
Lemma determineWorktreeBase_not_lexicographic :
  exists ps b,
    ps <> [] /\ standard_style ps /\ determineWorktreeBase ps = Some b
    /\ ~ lexicographically_first ps b /\ ~ shortlex_first ps b.
Proof.
  exists ["/repo/b"; "/repo/a"], "/repo/b".
  split; [discriminate|]. split.
  { intros p [E|[E|[]]]; subst p; reflexivity. }
  split; [reflexivity|]. split.
  - intros [_ H]. specialize (H "/repo/a" (or_intror (or_introl eq_refl))).
    discriminate H.
  - intros [_ H]. specialize (H "/repo/a" (or_intror (or_introl eq_refl))).
    discriminate H.
Qed.

(** C10.  When the first path ending in [.git] does not end in [/.git],
    the layout is taken as bare and that path is the base, unchanged. *)
Theorem determineWorktreeBase_bare_without_slash ps p :
  find (Js.endsWith ".git") ps = Some p ->
  Js.endsWith "/.git" p = false ->
  determineWorktreeBase ps = Some p.
Proof.
  intros Hfind Hslash. rewrite (determineWorktreeBase_bare ps p Hfind).
  now rewrite remove_at_end_absent.
Qed.

Lemma determineWorktreeBase_bare_without_slash_witness :
  find (Js.endsWith ".git") bare_paths = Some "/repos/project.git"
  /\ Js.endsWith "/.git" "/repos/project.git" = false
  /\ determineWorktreeBase bare_paths = Some "/repos/project.git".
Proof.
  split; [reflexivity|]. split; [reflexivity|].
  exact (determineWorktreeBase_bare_without_slash bare_paths
           "/repos/project.git" eq_refl eq_refl).
Defined.

(** ** Traces *)

Lemma commands_app t u : commands (t ++ u) = commands t ++ commands u.
Proof. apply flat_map_app. Qed.


Lemma outputs_app t u : outputs (t ++ u) = outputs t ++ outputs u.
Proof. apply flat_map_app. Qed.

Lemma errors_app t u : errors (t ++ u) = errors t ++ errors u.
Proof. apply flat_map_app. Qed.

Lemma mutations_app t u : mutations (t ++ u) = mutations t ++ mutations u.
Proof. unfold mutations. now rewrite commands_app, filter_app. Qed.

Lemma emitted_paths_app t u :
  emitted_paths (t ++ u) = emitted_paths t ++ emitted_paths u.
Proof.
  unfold emitted_paths. now rewrite outputs_app, filter_app, map_app.
Qed.

Lemma query_benign e : query e = true -> benign e = true.
Proof. destruct e; simpl; congruence. Qed.

Lemma benign_mutations d : forallb benign d = true -> mutations d = [].
Proof.
  induction d as [|e d IH]; [reflexivity|]. simpl. intros H.
  apply andb_true_iff in H. destruct H as [He Hd].
  change (e :: d) with ([e] ++ d). rewrite mutations_app, (IH Hd), app_nil_r.
  destruct e; try reflexivity. unfold mutations. simpl in *.
  now destruct (mutating c).
Qed.

Lemma benign_emitted_paths d :
  forallb benign d = true -> emitted_paths d = [].
Proof.
  induction d as [|e d IH]; [reflexivity|]. simpl. intros H.
  apply andb_true_iff in H. destruct H as [He Hd].
  change (e :: d) with ([e] ++ d).
  rewrite emitted_paths_app, (IH Hd), app_nil_r.
  destruct e; try reflexivity. unfold emitted_paths. simpl in *.
  now destruct (is_path_line line).
Qed.

Lemma query_outputs d : forallb query d = true -> outputs d = [].
Proof.
  induction d as [|e d IH]; [reflexivity|]. simpl. intros H.
  apply andb_true_iff in H. destruct H as [He Hd].
  destruct e; try discriminate He. simpl. now apply IH.
Qed.

Lemma query_errors d : forallb query d = true -> errors d = [].
Proof.
  induction d as [|e d IH]; [reflexivity|]. simpl. intros H.
  apply andb_true_iff in H. destruct H as [He Hd].
  destruct e; try discriminate He. simpl. now apply IH.
Qed.

Lemma forallb_weaken {A} (P Q : A -> bool) d :
  (forall x, P x = true -> Q x = true) ->
  forallb P d = true -> forallb Q d = true.
Proof.
  intros HPQ. rewrite !forallb_forall. intros H x Hx. now apply HPQ, H.
Qed.

Lemma forallb_In {A} (P : A -> bool) d x :
  forallb P d = true -> In x d -> P x = true.
Proof. intros H Hx. rewrite forallb_forall in H. now apply H. Qed.

(** ** The rules of the weakest-precondition reading *)

Section Logic.

Context {W : Type} {B : Backend W}.

Implicit Type s : State W.

Lemma bind_done {A C} (m : M W A) (f : A -> M W C) s a s1 :
  m s = (Done a, s1) -> bind m f s = f a s1.
Proof. unfold bind. now intros ->. Qed.

Lemma bind_thrown {A C} (m : M W A) (f : A -> M W C) s e s1 :
  m s = (Thrown e, s1) -> bind m f s = (Thrown e, s1).
Proof. unfold bind. now intros ->. Qed.


Lemma try_catch_done {A} (m : M W A) h s a s1 :
  m s = (Done a, s1) -> try_catch m h s = (Done a, s1).
Proof. unfold try_catch. now intros ->. Qed.

Lemma try_catch_thrown {A} (m : M W A) h s e s1 :
  m s = (Thrown e, s1) -> try_catch m h s = h e s1.
Proof. unfold try_catch. now intros ->. Qed.

Lemma try_catch_exited {A} (m : M W A) h s c s1 :
  m s = (Exited c, s1) -> try_catch m h s = (Exited c, s1).
Proof. unfold try_catch. now intros ->. Qed.

Lemma wp_run {A} (m : M W A) Q s r s' :
  wp m Q s -> m s = (r, s') ->
  exists d, trace s' = trace s ++ d /\ Q r d s'.
Proof. intros [d [E H]] Hm. rewrite Hm in *. now exists d. Qed.

Lemma wp_conseq {A} (m : M W A) (Q Q' : Outcome A -> list Event -> State W -> Prop) s :
  wp m Q s -> (forall r d s', Q r d s' -> Q' r d s') -> wp m Q' s.
Proof. intros [d [E H]] HQ. exists d. split; [exact E|now apply HQ]. Qed.

Lemma wp_ret {A} (a : A) (Q : Outcome A -> list Event -> State W -> Prop) s :
  Q (Done a) [] s -> wp (ret a) Q s.
Proof. intros H. exists []. simpl. now rewrite app_nil_r. Qed.

Lemma wp_throw {A} e (Q : Outcome A -> list Event -> State W -> Prop) s :
  Q (Thrown e) [] s -> wp (throw e) Q s.
Proof. intros H. exists []. simpl. now rewrite app_nil_r. Qed.

Lemma wp_exit {A} c (Q : Outcome A -> list Event -> State W -> Prop) s :
  Q (Exited c) [] s -> wp (process_exit c) Q s.
Proof. intros H. exists []. simpl. now rewrite app_nil_r. Qed.

Lemma wp_bind {A C} (m : M W A) (f : A -> M W C)
  (Q : Outcome C -> list Event -> State W -> Prop) s :
  wp m (fun r d1 s1 =>
          match r with
          | Done a => wp (f a) (fun r2 d2 s2 => Q r2 (d1 ++ d2) s2) s1
          | Thrown e => Q (Thrown e) d1 s1
          | Exited c => Q (Exited c) d1 s1
          end) s ->
  wp (bind m f) Q s.
Proof.
  unfold wp, bind. destruct (m s) as [[a|e|c] s1]; simpl;
    intros [d1 [E1 H]]; try (now exists d1).
  destruct H as [d2 [E2 H]]. exists (d1 ++ d2).
  now rewrite E2, E1, app_assoc.
Qed.

Lemma wp_try_catch {A} (m : M W A) h
  (Q : Outcome A -> list Event -> State W -> Prop) s :
  wp m (fun r d1 s1 =>
          match r with
          | Thrown e => wp (h e) (fun r2 d2 s2 => Q r2 (d1 ++ d2) s2) s1
          | Done a => Q (Done a) d1 s1
          | Exited c => Q (Exited c) d1 s1
          end) s ->
  wp (try_catch m h) Q s.
Proof.
  unfold wp, try_catch. destruct (m s) as [[a|e|c] s1]; simpl;
    intros [d1 [E1 H]]; try (now exists d1).
  destruct H as [d2 [E2 H]]. exists (d1 ++ d2).
  now rewrite E2, E1, app_assoc.
Qed.

Lemma wp_sh c (Q : Outcome string -> list Event -> State W -> Prop) s :
  (forall r w', run (cwd s) c (world s) = (r, w') ->
     Q (match r with Ok out => Done out | Failed e => Thrown e end)
       [EvRun (cwd s) c r]
       (mkState w' (cwd s) (trace s ++ [EvRun (cwd s) c r]))) ->
  wp (sh c) Q s.
Proof.
  intros H. unfold wp, sh.
  destruct (run (cwd s) c (world s)) as [r w'] eqn:E.
  specialize (H r w' eq_refl). exists [EvRun (cwd s) c r].
  destruct r; simpl; split; auto.
Qed.

Lemma wp_question prompt (Q : Outcome string -> list Event -> State W -> Prop) s :
  (forall a w', ask prompt (world s) = (a, w') ->
     Q (match a with Some x => Done x | None => Thrown "interrupted" end)
       [EvAsk prompt a]
       (mkState w' (cwd s) (trace s ++ [EvAsk prompt a]))) ->
  wp (question prompt) Q s.
Proof.
  intros H. unfold wp, question.
  destruct (ask prompt (world s)) as [a w'] eqn:E.
  specialize (H a w' eq_refl). exists [EvAsk prompt a].
  destruct a; simpl; split; auto.
Qed.

Lemma wp_log line (Q : Outcome unit -> list Event -> State W -> Prop) s :
  Q (Done tt) [EvOut line] (emit (EvOut line) s) -> wp (console_log line) Q s.
Proof. intros H. exists [EvOut line]. now split. Qed.

Lemma wp_err line (Q : Outcome unit -> list Event -> State W -> Prop) s :
  Q (Done tt) [EvErr line] (emit (EvErr line) s) -> wp (console_error line) Q s.
Proof. intros H. exists [EvErr line]. now split. Qed.

Lemma wp_cwd (Q : Outcome string -> list Event -> State W -> Prop) s :
  Q (Done (cwd s)) [] s -> wp process_cwd Q s.
Proof. intros H. exists []. simpl. now rewrite app_nil_r. Qed.

Lemma wp_chdir path (Q : Outcome unit -> list Event -> State W -> Prop) s :
  (can_chdir path (world s) = true ->
   Q (Done tt) [EvChdir path true]
     (mkState (world s) path (trace s ++ [EvChdir path true]))) ->
  (can_chdir path (world s) = false ->
   Q (Thrown ("ENOENT: no such file or directory, chdir " ++ path))
     [EvChdir path false] (emit (EvChdir path false) s)) ->
  wp (process_chdir path) Q s.
Proof.
  intros Ht Hf. unfold wp, process_chdir.
  destruct (can_chdir path (world s)).
  - exists [EvChdir path true]. split; [reflexivity|now apply Ht].
  - exists [EvChdir path false]. split; [reflexivity|now apply Hf].
Qed.

(** *** Calm computations *)

Lemma wp_calm {A} P (m : M W A) (Q : Outcome A -> list Event -> State W -> Prop) s :
  calm P m ->
  (forall r d s', forallb P d = true -> cwd s' = cwd s ->
                  match r with Exited _ => False | _ => True end ->
                  Q r d s') ->
  wp m Q s.
Proof.
  intros Hm HQ. eapply wp_conseq; [apply Hm|].
  intros r d s' (H1 & H2 & H3). now apply HQ.
Qed.

Lemma calm_run {A} P (m : M W A) s r s' :
  calm P m -> m s = (r, s') ->
  exists d, trace s' = trace s ++ d /\ forallb P d = true /\ cwd s' = cwd s.
Proof.
  intros Hm E. destruct (wp_run _ _ _ _ _ (Hm s) E) as (d & Hd & HP & Hc & _).
  now exists d.
Qed.

Lemma calm_weaken {A} (P Q : Event -> bool) (m : M W A) :
  (forall e, P e = true -> Q e = true) -> calm P m -> calm Q m.
Proof.
  intros HPQ Hm s. eapply wp_conseq; [apply Hm|].
  intros r d s' (H1 & H2 & H3). repeat split; auto.
  now apply (forallb_weaken P Q).
Qed.

Lemma calm_ret {A} P (a : A) : calm P (ret a : M W A).
Proof. intros s. apply wp_ret. now repeat split. Qed.

Lemma calm_throw {A} P e : calm P (throw e : M W A).
Proof. intros s. apply wp_throw. now repeat split. Qed.

Lemma calm_cwd P : calm P (process_cwd : M W string).
Proof. intros s. apply wp_cwd. now repeat split. Qed.

Lemma calm_bind {A C} P (m : M W A) (f : A -> M W C) :
  calm P m -> (forall a, calm P (f a)) -> calm P (bind m f).
Proof.
  intros Hm Hf s. apply wp_bind. eapply wp_conseq; [apply Hm|].
  intros [a|e|c] d1 s1 (H1 & H2 & H3); try now repeat split.
  eapply wp_conseq; [apply Hf|].
  intros r d2 s2 (K1 & K2 & K3). rewrite forallb_app, H1, K1.
  repeat split; congruence.
Qed.

Lemma calm_try_catch {A} P (m : M W A) h :
  calm P m -> (forall e, calm P (h e)) -> calm P (try_catch m h).
Proof.
  intros Hm Hh s. apply wp_try_catch. eapply wp_conseq; [apply Hm|].
  intros [a|e|c] d1 s1 (H1 & H2 & H3); try now repeat split.
  eapply wp_conseq; [apply Hh|].
  intros r d2 s2 (K1 & K2 & K3). rewrite forallb_app, H1, K1.
  repeat split; congruence.
Qed.

Lemma calm_sh (P : Event -> bool) c :
  (forall dir r, P (EvRun dir c r) = true) -> calm P (sh c).
Proof.
  intros HP s. apply wp_sh. intros r w' _. simpl. rewrite HP.
  destruct r; now repeat split.
Qed.

Lemma calm_log (P : Event -> bool) line :
  P (EvOut line) = true -> calm P (console_log line : M W unit).
Proof. intros HP s. apply wp_log. simpl. rewrite HP. now repeat split. Qed.

Lemma calm_err (P : Event -> bool) line :
  P (EvErr line) = true -> calm P (console_error line : M W unit).
Proof. intros HP s. apply wp_err. simpl. rewrite HP. now repeat split. Qed.

End Logic.

Create HintDb calm.
#[export] Hint Resolve calm_ret calm_throw calm_cwd calm_bind calm_try_catch
  calm_sh calm_log calm_err : calm.

#[export] Hint Extern 1 (forall _ : string, forall _ : Reply, _ = true) =>
  intros; reflexivity : calm.
#[export] Hint Extern 1 (_ = true) => reflexivity : calm.

(** One step of symbolic execution of a script. *)
Ltac wp_step :=
  lazymatch goal with
  | |- wp (bind _ _) _ _ => apply wp_bind
  | |- wp (try_catch _ _) _ _ => apply wp_try_catch
  | |- wp (ret _) _ _ => apply wp_ret
  | |- wp (throw _) _ _ => apply wp_throw
  | |- wp (process_exit _) _ _ => apply wp_exit
  | |- wp (console_log _) _ _ => apply wp_log
  | |- wp (console_error _) _ _ => apply wp_err
  | |- wp process_cwd _ _ => apply wp_cwd
  | |- wp getCurrentDirectory _ _ => apply wp_cwd
  | |- wp (sh _) _ _ => apply wp_sh; intros [?out|?e] ?w' _
  | |- wp (if Js.truthy_opt None then _ else _) _ _ =>
      change (Js.truthy_opt None) with false
  | |- wp (if ?b then _ else _) _ _ => destruct b eqn:?
  | |- wp (match ?o with _ => _ end) _ _ => destruct o eqn:?
  end; cbn beta iota zeta delta [negb].

(** A step through a computation known to be calm. *)
Ltac wp_calm_step H :=
  lazymatch goal with
  | |- wp (bind _ _) _ _ => apply wp_bind
  | |- _ => idtac
  end;
  eapply wp_calm; [apply H|];
  let r := fresh "r" in let d := fresh "d" in let s := fresh "s" in
  let Hd := fresh "Hd" in let Hc := fresh "Hc" in let Hx := fresh "Hx" in
  intros r d s Hd Hc Hx; destruct r; [|idtac|destruct Hx]; cbn beta iota zeta.

(** ** git-worktree-utils.ts: what each function may do *)

Section UtilsFacts.

Context {W : Type} {B : Backend W}.

Implicit Type s : State W.

Lemma calm_validateGitRepository : calm query validateGitRepository.
Proof. unfold validateGitRepository. auto 10 with calm. Qed.

Lemma calm_getWorktreePaths : calm query getWorktreePaths.
Proof. unfold getWorktreePaths. auto 10 with calm. Qed.

Lemma calm_determineWorktreeBaseM ps :
  calm query (determineWorktreeBaseM ps : M W string).
Proof.
  unfold determineWorktreeBaseM.
  destruct (determineWorktreeBase ps); auto with calm.
Qed.

Lemma calm_branchExistsLocally b : calm query (branchExistsLocally b).
Proof. unfold branchExistsLocally. auto 10 with calm. Qed.

Lemma calm_getCurrentBranch path : calm query (getCurrentBranch path).
Proof.
  unfold getCurrentBranch. destruct (Js.truthy_opt path); auto 10 with calm.
Qed.

Lemma calm_isCurrentDirectoryWorktree : calm query isCurrentDirectoryWorktree.
Proof.
  unfold isCurrentDirectoryWorktree, getCurrentDirectory.
  pose proof calm_getWorktreePaths. pose proof calm_determineWorktreeBaseM.
  auto 10 with calm.
Qed.

Lemma calm_tryRemoteHead : calm benign tryRemoteHead.
Proof.
  unfold tryRemoteHead. apply calm_try_catch; [|auto with calm].
  apply calm_bind; [auto with calm|]. intros out. cbv zeta.
  destruct (Js.truthy (Js.trim out)); [|auto with calm].
  destruct (Js.match_after _ _); auto 10 with calm.
Qed.

Lemma calm_tryCommonBranches names : calm benign (tryCommonBranches names).
Proof.
  induction names as [|b rest IH]; simpl; [auto with calm|].
  apply calm_bind.
  - auto 20 with calm.
  - intros [x|]; auto with calm.
Qed.

Lemma calm_tryFirstBranch : calm benign tryFirstBranch.
Proof.
  unfold tryFirstBranch. apply calm_try_catch; [|auto with calm].
  apply calm_bind; [auto with calm|]. intros out. cbv zeta.
  destruct (Js.truthy _); auto 10 with calm.
Qed.

Lemma calm_discoverMainBranch : calm benign discoverMainBranch.
Proof.
  unfold discoverMainBranch.
  apply calm_bind; [apply calm_tryRemoteHead|]. intros [b|]; [auto with calm|].
  apply calm_bind; [apply calm_tryCommonBranches|].
  intros [b|]; [auto with calm|].
  apply calm_bind; [apply calm_tryFirstBranch|].
  intros [b|]; auto 10 with calm.
Qed.

(** *** The chain of [discoverMainBranch] *)










End UtilsFacts.

(** ** git-worktree-add.ts *)

Ltac calm_benign H := apply (calm_weaken query benign _ query_benign H).

(** Closes a goal on the structured lines of a trace built from calm
    pieces and explicit events. *)
Ltac count_paths :=
  repeat rewrite emitted_paths_app;
  repeat match goal with
         | H : forallb benign ?d = true |- _ =>
             rewrite (benign_emitted_paths d H); clear H
         end;
  reflexivity.

Ltac count_mutations :=
  repeat rewrite mutations_app;
  repeat match goal with
         | H : forallb benign ?d = true |- _ =>
             rewrite (benign_mutations d H); clear H
         end;
  reflexivity.

Section AddFacts.

Context {W : Type} {B : Backend W}.

Implicit Type s : State W.

Lemma getCurrentBranch_benign path : calm benign (getCurrentBranch path).
Proof. calm_benign (calm_getCurrentBranch path). Qed.

Lemma switchToExistingWorktree_wp targetPath s :
  wp (add_catch (switchToExistingWorktree targetPath))
     (fun r d _ => transition_post targetPath [] r d) s.
Proof.
  unfold add_catch, switchToExistingWorktree, switchToDirectory.
  do 3 wp_step. wp_calm_step (getCurrentBranch_benign (Some targetPath)).
  - do 6 wp_step. split; [count_mutations|count_paths].
  - do 5 wp_step. split; [count_mutations|]. split; [reflexivity|count_paths].
Qed.

Lemma createWorktreeWithExistingBranch_wp targetPath branchName s :
  wp (add_catch (createWorktreeWithExistingBranch targetPath branchName))
     (fun r d _ =>
        transition_post targetPath [WorktreeAdd targetPath branchName] r d) s.
Proof.
  unfold add_catch, createWorktreeWithExistingBranch, switchToDirectory.
  do 3 wp_step.
  - do 3 wp_step. wp_calm_step (getCurrentBranch_benign (Some targetPath)).
    + do 6 wp_step. split; [count_mutations|count_paths].
    + do 5 wp_step. split; [count_mutations|]. split; [reflexivity|count_paths].
  - do 5 wp_step. now repeat split.
Qed.

Lemma createWorktreeWithNewBranch_wp targetPath branchName mainBranch s :
  wp (add_catch (createWorktreeWithNewBranch targetPath branchName mainBranch))
     (fun r d _ =>
        transition_post targetPath
          [WorktreeAddNew targetPath mainBranch branchName] r d) s.
Proof.
  unfold add_catch, createWorktreeWithNewBranch, switchToDirectory.
  do 3 wp_step.
  - do 5 wp_step. wp_calm_step (getCurrentBranch_benign (Some targetPath)).
    + do 6 wp_step. split; [count_mutations|count_paths].
    + do 5 wp_step. split; [count_mutations|]. split; [reflexivity|count_paths].
  - do 5 wp_step. now repeat split.
Qed.

End AddFacts.

(** ** Walking through a whole script *)

Section CalmFacts.

Context {W : Type} {B : Backend W}.

Lemma validateGitRepository_benign : calm benign validateGitRepository.
Proof. calm_benign calm_validateGitRepository. Qed.

Lemma getWorktreePaths_benign : calm benign getWorktreePaths.
Proof. calm_benign calm_getWorktreePaths. Qed.

Lemma branchExistsLocally_benign b : calm benign (branchExistsLocally b).
Proof. calm_benign (calm_branchExistsLocally b). Qed.

Lemma isCurrentDirectoryWorktree_benign : calm benign isCurrentDirectoryWorktree.
Proof. calm_benign calm_isCurrentDirectoryWorktree. Qed.

Lemma calm_question (P : Event -> bool) prompt :
  (forall a, P (EvAsk prompt a) = true) -> calm P (question prompt).
Proof.
  intros HP s. apply wp_question. intros a w' _. simpl. rewrite HP.
  destruct a; now repeat split.
Qed.

Lemma askForConfirmation_benign message : calm benign (askForConfirmation message).
Proof.
  unfold askForConfirmation.
  apply calm_try_catch; [|auto with calm].
  apply calm_bind; [|auto with calm].
  apply calm_question. reflexivity.
Qed.

End CalmFacts.

(** A step through one of the functions of git-worktree-utils.ts. *)
Ltac wp_call :=
  lazymatch goal with
  | |- wp (bind validateGitRepository _) _ _ =>
      wp_calm_step validateGitRepository_benign
  | |- wp (bind discoverMainBranch _) _ _ =>
      wp_calm_step calm_discoverMainBranch
  | |- wp (bind getWorktreePaths _) _ _ =>
      wp_calm_step getWorktreePaths_benign
  | |- wp (bind (branchExistsLocally ?b) _) _ _ =>
      wp_calm_step (branchExistsLocally_benign b)
  | |- wp (bind isCurrentDirectoryWorktree _) _ _ =>
      wp_calm_step isCurrentDirectoryWorktree_benign
  | |- wp (bind (getCurrentBranch ?p) _) _ _ =>
      wp_calm_step (getCurrentBranch_benign p)
  | |- wp (bind (askForConfirmation ?m) _) _ _ =>
      wp_calm_step (askForConfirmation_benign m)
  | |- wp (askForConfirmation ?m) _ _ =>
      wp_calm_step (askForConfirmation_benign m)
  | |- wp (determineWorktreeBaseM ?ps) _ _ =>
      unfold determineWorktreeBaseM;
      destruct (determineWorktreeBase ps) eqn:?
  | |- wp (process_chdir _) _ _ =>
      apply wp_chdir; intros _; cbn beta iota zeta
  end.

Ltac wp_walk := repeat first [wp_call | wp_step].

Section Counting.

Context {W : Type} {B : Backend W}.

Implicit Type s : State W.

Lemma add_main_paths args s :
  wp (add_main args)
     (fun r d _ =>
        match r with Thrown _ => False | _ => True end
        /\ (success r -> length (emitted_paths d) = 1)) s.
Proof.
  unfold add_main, add_catch, switchToExistingWorktree,
    createWorktreeWithExistingBranch, createWorktreeWithNewBranch,
    switchToDirectory.
  destruct args as [|branchName rest]; wp_walk;
    (split; [exact I|]);
    intros H; try discriminate H; try contradiction H; count_paths.
Qed.

Lemma remove_main_paths args s :
  wp (remove_main args)
     (fun r d _ =>
        match r with Thrown _ => False | _ => True end
        /\ (success r ->
            length (emitted_paths d) = if forced args then 1 else 0)) s.
Proof.
  unfold remove_main, switchToDirectory. cbv zeta.
  change (Js.includes args "--force" || Js.includes args "-f")
    with (forced args).
  wp_walk; (split; [exact I|]);
    intros H; try discriminate H; try contradiction H; count_paths.
Qed.

(** No error escapes [main]: the [catch] at the call of [main] at the end
    of each script never runs. *)
Lemma main_never_throws (i : Invocation) s e s' : invoke i s <> (Thrown e, s').
Proof.
  intros Hrun. destruct i as [args|args]; simpl in Hrun.
  - destruct (wp_run _ _ _ _ _ (add_main_paths args s) Hrun) as (d & _ & H & _).
    exact H.
  - destruct (wp_run _ _ _ _ _ (remove_main_paths args s) Hrun) as (d & _ & H & _).
    exact H.
Qed.

End Counting.

(** ** The three-way decision of [add] *)

Section AddDecision.

Context {W : Type} {B : Backend W}.

Implicit Type s : State W.

Lemma add_main_after_listing branchName rest s0 s1 s2 s3
  mainBranch worktreePaths base :
  validateGitRepository s0 = (Done tt, s1) ->
  discoverMainBranch s1 = (Done mainBranch, s2) ->
  getWorktreePaths s2 = (Done worktreePaths, s3) ->
  determineWorktreeBase worktreePaths = Some base ->
  let targetPath := (base ++ "/" ++ branchName)%string in
  add_main (branchName :: rest) s0 =
  add_catch
    (if Js.truthy_opt
          (find (fun path => String.eqb path targetPath) worktreePaths)
     then switchToExistingWorktree targetPath
     else
       branchExists <- branchExistsLocally branchName ;;
       if branchExists
       then createWorktreeWithExistingBranch targetPath branchName
       else createWorktreeWithNewBranch targetPath branchName mainBranch) s3.
Proof.
  intros H1 H2 H3 H4 targetPath. unfold add_main, add_catch, try_catch.
  rewrite (bind_done _ _ _ _ _ H1), (bind_done _ _ _ _ _ H2),
    (bind_done _ _ _ _ _ H3).
  unfold determineWorktreeBaseM. rewrite H4. reflexivity.
Qed.

Lemma add_catch_bind_done {A} (m : M W A) (f : A -> M W unit) s a s1 :
  m s = (Done a, s1) -> add_catch (bind m f) s = add_catch (f a) s1.
Proof.
  intros H. unfold add_catch, try_catch. now rewrite (bind_done _ _ _ _ _ H).
Qed.

Lemma listing_is_quiet s0 s1 s2 s3 mainBranch worktreePaths :
  validateGitRepository s0 = (Done tt, s1) ->
  discoverMainBranch s1 = (Done mainBranch, s2) ->
  getWorktreePaths s2 = (Done worktreePaths, s3) ->
  exists d, trace s3 = trace s0 ++ d /\ forallb benign d = true.
Proof.
  intros H1 H2 H3.
  destruct (calm_run _ _ _ _ _ validateGitRepository_benign H1) as (d1 & E1 & P1 & _).
  destruct (calm_run _ _ _ _ _ calm_discoverMainBranch H2) as (d2 & E2 & P2 & _).
  destruct (calm_run _ _ _ _ _ getWorktreePaths_benign H3) as (d3 & E3 & P3 & _).
  exists (d1 ++ d2 ++ d3). split.
  - now rewrite E3, E2, E1, !app_assoc.
  - now rewrite !forallb_app, P1, P2, P3.
Qed.

(** What a run of a transition, started after the quiet events [d0], has
    done in all. *)
Lemma transition_outcome (K : M W unit) targetPath ms s0 s d0 :
  trace s = trace s0 ++ d0 -> forallb benign d0 = true ->
  wp (add_catch K) (fun r d _ => transition_post targetPath ms r d) s ->
  mutations (trace (snd (add_catch K s))) = mutations (trace s0) ++ ms
  /\ (fst (add_catch K s) = Done tt ->
      emitted_paths (trace (snd (add_catch K s)))
      = emitted_paths (trace s0) ++ [targetPath]).
Proof.
  intros E0 P0 (d & E & Hm & Hr). rewrite E, E0. split.
  - now rewrite !mutations_app, (benign_mutations d0 P0), Hm, app_nil_r.
  - intros Hdone. rewrite Hdone in Hr.
    now rewrite !emitted_paths_app, (benign_emitted_paths d0 P0), Hr, app_nil_r.
Qed.

(** C1.  In a valid repository whose main branch resolves to [mainBranch]
    and whose worktree list is [worktreePaths] with base [base], a run of
    [add branchName] is decided in this order: if [base/branchName] is in
    the list, the switch, which changes nothing and, when it returns,
    prints that path; otherwise, if the branch exists locally, the one
    command [git worktree add base/branchName branchName]; otherwise the
    one command [git worktree add base/branchName mainBranch -b
    branchName]. *)
Theorem add_three_way branchName rest s0 s1 s2 s3
  mainBranch worktreePaths base :
  validateGitRepository s0 = (Done tt, s1) ->
  discoverMainBranch s1 = (Done mainBranch, s2) ->
  getWorktreePaths s2 = (Done worktreePaths, s3) ->
  determineWorktreeBase worktreePaths = Some base ->
  let targetPath := (base ++ "/" ++ branchName)%string in
  let result := add_main (branchName :: rest) s0 in
  let printed :=
    fst result = Done tt ->
    emitted_paths (trace (snd result)) = emitted_paths (trace s0) ++ [targetPath] in
  (In targetPath worktreePaths ->
     result = add_catch (switchToExistingWorktree targetPath) s3
     /\ mutations (trace (snd result)) = mutations (trace s0)
     /\ printed)
  /\ (~ In targetPath worktreePaths -> forall s4,
      branchExistsLocally branchName s3 = (Done true, s4) ->
      result = add_catch (createWorktreeWithExistingBranch targetPath branchName) s4
      /\ mutations (trace (snd result))
         = mutations (trace s0) ++ [WorktreeAdd targetPath branchName]
      /\ printed)
  /\ (~ In targetPath worktreePaths -> forall s4,
      branchExistsLocally branchName s3 = (Done false, s4) ->
      result = add_catch (createWorktreeWithNewBranch targetPath branchName mainBranch) s4
      /\ mutations (trace (snd result))
         = mutations (trace s0) ++ [WorktreeAddNew targetPath mainBranch branchName]
      /\ printed).
Proof.
  intros H1 H2 H3 H4 targetPath result printed.
  pose proof (add_main_after_listing branchName rest _ _ _ _ _ _ _ H1 H2 H3 H4)
    as Hrun. cbv zeta in Hrun. fold targetPath in Hrun. fold result in Hrun.
  destruct (listing_is_quiet _ _ _ _ _ _ H1 H2 H3) as (d0 & E0 & P0).
  pose proof (find_eqb_truthy targetPath worktreePaths
                (truthy_path base branchName)) as Hfind.
  split; [|split].
  - intros Hin. apply Hfind in Hin. rewrite Hin in Hrun.
    split; [exact Hrun|]. unfold printed. rewrite Hrun.
    rewrite <- (app_nil_r (mutations (trace s0))).
    apply (transition_outcome _ targetPath [] s0 s3 d0 E0 P0).
    apply switchToExistingWorktree_wp.
  - intros Hnot s4 Hb.
    assert (Hf : Js.truthy_opt
                   (find (fun path => String.eqb path targetPath) worktreePaths)
                 = false).
    { destruct (Js.truthy_opt _); [|reflexivity].
      exfalso. apply Hnot, Hfind. reflexivity. }
    rewrite Hf, (add_catch_bind_done _ _ _ _ _ Hb) in Hrun.
    destruct (calm_run _ _ _ _ _ (branchExistsLocally_benign branchName) Hb)
      as (d4 & E4 & P4 & _).
    split; [exact Hrun|]. unfold printed. rewrite Hrun.
    apply (transition_outcome _ targetPath _ s0 s4 (d0 ++ d4)).
    + now rewrite E4, E0, app_assoc.
    + now rewrite forallb_app, P0, P4.
    + apply createWorktreeWithExistingBranch_wp.
  - intros Hnot s4 Hb.
    assert (Hf : Js.truthy_opt
                   (find (fun path => String.eqb path targetPath) worktreePaths)
                 = false).
    { destruct (Js.truthy_opt _); [|reflexivity].
      exfalso. apply Hnot, Hfind. reflexivity. }
    rewrite Hf, (add_catch_bind_done _ _ _ _ _ Hb) in Hrun.
    destruct (calm_run _ _ _ _ _ (branchExistsLocally_benign branchName) Hb)
      as (d4 & E4 & P4 & _).
    split; [exact Hrun|]. unfold printed. rewrite Hrun.
    apply (transition_outcome _ targetPath _ s0 s4 (d0 ++ d4)).
    + now rewrite E4, E0, app_assoc.
    + now rewrite forallb_app, P0, P4.
    + apply createWorktreeWithNewBranch_wp.
Qed.

End AddDecision.

Lemma add_three_way_witness :
  validateGitRepository (B:=repo) (start "/repo") = (Done tt, validated "/repo")
  /\ discoverMainBranch (B:=repo) (validated "/repo")
     = (Done "main", resolved "/repo")
  /\ getWorktreePaths (B:=repo) (resolved "/repo")
     = (Done ["/repo"; "/repo/feature"], listed (resolved "/repo"))
  /\ determineWorktreeBase ["/repo"; "/repo/feature"] = Some "/repo"
  /\ In "/repo/feature" ["/repo"; "/repo/feature"]
  /\ add_main (B:=repo) ["feature"] (start "/repo")
     = add_catch (switchToExistingWorktree (B:=repo) "/repo/feature")
         (listed (resolved "/repo"))
  /\ mutations (trace (snd (add_main (B:=repo) ["feature"] (start "/repo")))) = [].
Proof.
  assert (Hin : In "/repo/feature" ["/repo"; "/repo/feature"])
    by (right; left; reflexivity).
  do 4 (split; [reflexivity|]). split; [exact Hin|].
  destruct (add_three_way (B:=repo) "feature" [] (start "/repo")
              (validated "/repo") (resolved "/repo") (listed (resolved "/repo"))
              "main" ["/repo"; "/repo/feature"] "/repo"
              eq_refl eq_refl eq_refl eq_refl) as (Hswitch & _ & _).
  destruct (Hswitch Hin) as (Hrun & Hmut & _).
  split; [exact Hrun|exact Hmut].
Defined.

(** ** The structured output line *)

Section StructuredLine.

Context {W : Type} {B : Backend W}.

(** C4 (as amended).  A successful [add], and a successful [remove] in
    force mode, print exactly one structured line; a successful [remove]
    without the force flag prints none.  (Lines are counted as calls of
    [console.log].) *)
Theorem structured_line_of_success (i : Invocation) (s : State W) r s' :
  invoke i s = (r, s') -> success r ->
  exists d,
    trace s' = trace s ++ d /\ length (emitted_paths d) = structured_lines i.
Proof.
  intros Hrun Hok. destruct i as [args|args]; simpl in *.
  - destruct (wp_run _ _ _ _ _ (add_main_paths args s) Hrun)
      as (d & E & _ & H).
    exists d. split; [exact E|now apply H].
  - destruct (wp_run _ _ _ _ _ (remove_main_paths args s) Hrun)
      as (d & E & _ & H).
    exists d. split; [exact E|now apply H].
Qed.

End StructuredLine.

Lemma structured_line_of_success_witness :
  success (fst (invoke (B:=repo) (Add ["brandnew"]) (start "/repo")))
  /\ exists d,
       trace (snd (invoke (B:=repo) (Add ["brandnew"]) (start "/repo")))
       = trace (start "/repo") ++ d
       /\ length (emitted_paths d) = 1.
Proof.
  split; [exact I|].
  exact (structured_line_of_success (B:=repo) (Add ["brandnew"]) (start "/repo")
           (fst (invoke (B:=repo) (Add ["brandnew"]) (start "/repo")))
           (snd (invoke (B:=repo) (Add ["brandnew"]) (start "/repo")))
           eq_refl I).
Defined.

(** C4, refuted as written.  A [remove] without the force flag, confirmed
    by the user, removes the worktree, returns, and prints no structured
    line. *)
Lemma confirmed_remove_prints_no_path :
  fst (invoke (B:=repo_yes) (Remove []) (start "/repo/feature")) = Done tt
  /\ mutations (trace (snd (invoke (B:=repo_yes) (Remove [])
                              (start "/repo/feature"))))
     = [Checkout "main"; WorktreeRemove "/repo/feature"]
  /\ emitted_paths (trace (snd (invoke (B:=repo_yes) (Remove [])
                                  (start "/repo/feature")))) = [].
Proof. repeat split. Qed.

(** ** git-worktree-remove.ts *)

Section RemoveFacts.

Context {W : Type} {B : Backend W}.

Implicit Type s : State W.

Lemma isCurrentDirectoryWorktree_listed s s' worktreePaths base :
  getWorktreePaths s = (Done worktreePaths, s') ->
  determineWorktreeBase worktreePaths = Some base ->
  isCurrentDirectoryWorktree s
  = (Done (negb (String.eqb (cwd s) base) && Js.includes worktreePaths (cwd s)),
     s').
Proof.
  intros H1 H2. unfold isCurrentDirectoryWorktree, getCurrentDirectory.
  apply try_catch_done.
  rewrite (bind_done process_cwd _ s (cwd s) s eq_refl).
  rewrite (bind_done _ _ _ _ _ H1).
  unfold determineWorktreeBaseM. now rewrite H2.
Qed.

Lemma isCurrentDirectoryWorktree_unlisted s s' e :
  getWorktreePaths s = (Thrown e, s') ->
  isCurrentDirectoryWorktree s = (Done false, s').
Proof.
  intros H. unfold isCurrentDirectoryWorktree, getCurrentDirectory.
  rewrite (try_catch_thrown _ _ s e s'); [reflexivity|].
  rewrite (bind_done process_cwd _ s (cwd s) s eq_refl).
  now apply bind_thrown.
Qed.

(** The refusal: [remove] run where [isCurrentDirectoryWorktree] says no. *)
Lemma remove_main_refused args s0 s1 s2 :
  validateGitRepository s0 = (Done tt, s1) ->
  isCurrentDirectoryWorktree s1 = (Done false, s2) ->
  remove_main args s0 = (Exited 1, emit (EvOut msg_not_in_worktree) s2).
Proof.
  intros H1 H2. unfold remove_main. cbv zeta.
  apply try_catch_exited.
  rewrite (bind_done _ _ _ _ _ H1), (bind_done _ _ _ _ _ H2).
  reflexivity.
Qed.

Lemma reported_refusal t :
  reported_failure (t ++ [EvOut msg_not_in_worktree]) = Some NotInWorktree.
Proof.
  unfold reported_failure. rewrite rev_app_distr. cbn [rev app].
  now rewrite String.eqb_refl.
Qed.

Lemma query_run_quiet {A} (m : M W A) s r s' :
  calm query m -> m s = (r, s') ->
  cwd s' = cwd s
  /\ mutations (trace s') = mutations (trace s)
  /\ outputs (trace s') = outputs (trace s)
  /\ errors (trace s') = errors (trace s)
  /\ emitted_paths (trace s') = emitted_paths (trace s).
Proof.
  intros Hm Hrun. destruct (calm_run _ _ _ _ _ Hm Hrun) as (d & E & P & Hc).
  pose proof (forallb_weaken _ _ d query_benign P) as Pb.
  rewrite E, mutations_app, outputs_app, errors_app, emitted_paths_app.
  rewrite (benign_mutations d Pb), (benign_emitted_paths d Pb),
    (query_outputs d P), (query_errors d P), !app_nil_r.
  now repeat split.
Qed.

Lemma isCurrentDirectoryWorktree_baseless s s' worktreePaths :
  getWorktreePaths s = (Done worktreePaths, s') ->
  determineWorktreeBase worktreePaths = None ->
  isCurrentDirectoryWorktree s = (Done false, s').
Proof.
  intros H1 H2. unfold isCurrentDirectoryWorktree, getCurrentDirectory.
  rewrite (try_catch_thrown _ _ s "Reduce of empty array with no initial value" s');
    [reflexivity|].
  rewrite (bind_done process_cwd _ s (cwd s) s eq_refl).
  rewrite (bind_done _ _ _ _ _ H1).
  unfold determineWorktreeBaseM. now rewrite H2.
Qed.

(** C5.  In a valid repository whose worktree list is [worktreePaths], a
    [remove] run from a directory that is not a worktree distinct from
    the base (the base itself, or a directory that is not in the list) is
    refused: it reports NotInWorktree, exits with 1 and issues no command
    that changes the repository. *)
Theorem remove_refused_outside_worktree args s0 s1 s2 worktreePaths :
  validateGitRepository s0 = (Done tt, s1) ->
  getWorktreePaths s1 = (Done worktreePaths, s2) ->
  ~ (exists base, determineWorktreeBase worktreePaths = Some base
                  /\ cwd s0 <> base /\ In (cwd s0) worktreePaths) ->
  let final := emit (EvOut msg_not_in_worktree) s2 in
  remove_main args s0 = (Exited 1, final)
  /\ reported_failure (trace final) = Some NotInWorktree
  /\ mutations (trace final) = mutations (trace s0).
Proof.
  intros H1 H2 Hnot final.
  destruct (query_run_quiet _ _ _ _ calm_validateGitRepository H1)
    as (Hc1 & Hm1 & _).
  destruct (query_run_quiet _ _ _ _ calm_getWorktreePaths H2)
    as (Hc2 & Hm2 & _).
  assert (Hno : isCurrentDirectoryWorktree s1 = (Done false, s2)).
  { destruct (determineWorktreeBase worktreePaths) as [base|] eqn:Hbase.
    - rewrite (isCurrentDirectoryWorktree_listed _ _ _ _ H2 Hbase), Hc1.
      destruct (String.eqb_spec (cwd s0) base) as [E|E]; [reflexivity|].
      destruct (Js.includes worktreePaths (cwd s0)) eqn:Hin; [|reflexivity].
      exfalso. apply Hnot. exists base. apply includes_In in Hin. now repeat split.
    - now apply (isCurrentDirectoryWorktree_baseless _ _ worktreePaths). }
  split; [|split].
  - now apply (remove_main_refused args s0 s1 s2).
  - apply reported_refusal.
  - unfold final. cbn [trace emit]. rewrite mutations_app, Hm2, Hm1.
    apply app_nil_r.
Qed.

(** C8 (as amended).  In a valid repository, when the query for the
    worktree list fails while [remove] checks where it is run from, the
    run stops with exit code 1 and changes nothing; the failure it
    reports is NotInWorktree, and the error of the backend is not
    printed. *)
Theorem remove_list_failure_is_refusal args s0 s1 s2 e :
  validateGitRepository s0 = (Done tt, s1) ->
  getWorktreePaths s1 = (Thrown e, s2) ->
  let final := emit (EvOut msg_not_in_worktree) s2 in
  remove_main args s0 = (Exited 1, final)
  /\ reported_failure (trace final) = Some NotInWorktree
  /\ mutations (trace final) = mutations (trace s0)
  /\ errors (trace final) = errors (trace s0).
Proof.
  intros H1 H2 final.
  destruct (query_run_quiet _ _ _ _ calm_validateGitRepository H1)
    as (_ & Hm1 & _ & He1 & _).
  destruct (query_run_quiet _ _ _ _ calm_getWorktreePaths H2)
    as (_ & Hm2 & _ & He2 & _).
  pose proof (isCurrentDirectoryWorktree_unlisted _ _ _ H2) as Hno.
  split; [|split; [|split]].
  - now apply (remove_main_refused args s0 s1 s2).
  - apply reported_refusal.
  - unfold final. cbn [trace emit]. rewrite mutations_app, Hm2, Hm1.
    apply app_nil_r.
  - unfold final. cbn [trace emit]. rewrite errors_app, He2, He1.
    apply app_nil_r.
Qed.

End RemoveFacts.

Lemma remove_refused_outside_worktree_witness :
  validateGitRepository (B:=repo) (start "/repo") = (Done tt, validated "/repo")
  /\ getWorktreePaths (B:=repo) (validated "/repo")
     = (Done ["/repo"; "/repo/feature"], listed (validated "/repo"))
  /\ determineWorktreeBase ["/repo"; "/repo/feature"] = Some "/repo"
  /\ remove_main (B:=repo) ["--force"] (start "/repo")
     = (Exited 1, emit (EvOut msg_not_in_worktree) (listed (validated "/repo")))
  /\ mutations (trace (emit (EvOut msg_not_in_worktree)
                         (listed (validated "/repo")))) = [].
Proof.
  do 3 (split; [reflexivity|]).
  assert (Hnot : ~ (exists base,
             determineWorktreeBase ["/repo"; "/repo/feature"] = Some base
             /\ cwd (start "/repo") <> base
             /\ In (cwd (start "/repo")) ["/repo"; "/repo/feature"])).
  { intros (base & Hbase & Hne & _). apply Hne.
    change (determineWorktreeBase ["/repo"; "/repo/feature"])
      with (Some "/repo") in Hbase.
    now injection Hbase. }
  destruct (remove_refused_outside_worktree (B:=repo) ["--force"]
              (start "/repo") (validated "/repo") (listed (validated "/repo"))
              ["/repo"; "/repo/feature"] eq_refl eq_refl Hnot)
    as (Hrun & _ & Hmut).
  split; [exact Hrun|exact Hmut].
Defined.

Lemma remove_list_failure_is_refusal_witness :
  validateGitRepository (B:=broken) (start "/repo/feature")
  = (Done tt, validated "/repo/feature")
  /\ remove_main (B:=broken) [] (start "/repo/feature")
     = (Exited 1,
        emit (EvOut msg_not_in_worktree)
          (snd (getWorktreePaths (B:=broken) (validated "/repo/feature"))))
  /\ errors (trace (emit (EvOut msg_not_in_worktree)
                      (snd (getWorktreePaths (B:=broken)
                              (validated "/repo/feature"))))) = [].
Proof.
  split; [reflexivity|].
  destruct (remove_list_failure_is_refusal (B:=broken) []
              (start "/repo/feature") (validated "/repo/feature")
              (snd (getWorktreePaths (B:=broken) (validated "/repo/feature")))
              "fatal: unable to read worktree list" eq_refl eq_refl)
    as (Hrun & _ & _ & Herr).
  split; [exact Hrun|exact Herr].
Defined.

(** C8, refuted as written.  With a failing [git worktree list] the run
    exits with 1, but what it reports is NotInWorktree, not a failure of
    the backend, and nothing reaches standard error. *)
Lemma list_failure_reported_as_not_in_worktree :
  fst (remove_main (B:=broken) [] (start "/repo/feature")) = Exited 1
  /\ probes (trace (snd (remove_main (B:=broken) [] (start "/repo/feature"))))
     = [(GitDir, Ok (".git" ++ Js.nl));
        (WorktreeList, Failed "fatal: unable to read worktree list")]
  /\ reported_failure
       (trace (snd (remove_main (B:=broken) [] (start "/repo/feature"))))
     = Some NotInWorktree
  /\ reported_failure
       (trace (snd (remove_main (B:=broken) [] (start "/repo/feature"))))
     <> Some BackendUnavailable
  /\ errors (trace (snd (remove_main (B:=broken) [] (start "/repo/feature"))))
     = [].
Proof. repeat split. discriminate. Qed.

(** ** Declining the confirmation *)

Section Declined.

Context {W : Type} {B : Backend W}.

Implicit Type s : State W.



End Declined.



(** ** The main branch is busy elsewhere *)

(** Finds an event in a trace made of segments and explicit events. *)
Ltac find_in :=
  lazymatch goal with
  | |- In _ (_ :: _) => first [left; reflexivity | right; find_in]
  | |- In _ (_ ++ _) => apply in_or_app; first [left; find_in | right; find_in]
  end.

(** Splits a membership in such a trace into its cases. *)
Ltac split_in H :=
  lazymatch type of H with
  | In _ (_ ++ _) =>
      apply in_app_or in H; destruct H as [H|H]; [split_in H|split_in H]
  | In _ (_ :: _) => destruct H as [H|H]; [|split_in H]
  | In _ [] => destruct H
  | _ => idtac
  end.

Section Fallback.

Context {W : Type} {B : Backend W}.

Implicit Type s : State W.



End Fallback.


(** The run of the witness, in full: the refused checkout, the detached
    checkout, the removal, the structured line. *)
Example busy_main_run :
  fst (remove_main (B:=busy) ["-f"] (start "/repo/feature")) = Done tt
  /\ mutations (trace (snd (remove_main (B:=busy) ["-f"] (start "/repo/feature"))))
     = [Checkout "main"; CheckoutDetach "main"; WorktreeRemove "/repo/feature"]
  /\ emitted_paths
       (trace (snd (remove_main (B:=busy) ["-f"] (start "/repo/feature"))))
     = ["/repo"].
Proof. repeat split. Qed.

(* ===================================================================== *)
(** * Further properties of the scripts *)
(* ===================================================================== *)

(** ** The base directory *)

(** X1.  The only list for which [determineWorktreeBase] throws is the empty
    one. *)
Theorem determineWorktreeBase_throws_iff_empty ps :
  determineWorktreeBase ps = None <-> ps = [].
Proof.
  split.
  - intros H. destruct ps as [|p ps]; [reflexivity|].
    destruct (determineWorktreeBase_defined (p :: ps)) as [b Hb];
      [discriminate|congruence].
  - now intros ->.
Qed.

(** X2.  A bare repository kept in a directory named [.git]: when the first
    path that ends in [.git] ends in [/.git], the base is that path
    without the [/.git], its parent directory. *)
Theorem determineWorktreeBase_in_dot_git ps p :
  find (Js.endsWith ".git") ps = Some p ->
  Js.endsWith "/.git" p = true ->
  exists parent,
    p = (parent ++ "/.git")%string /\ determineWorktreeBase ps = Some parent.
Proof.
  intros Hfind Hslash. exists (Js.remove_at_end "/.git" p). split.
  - now apply remove_at_end_present.
  - now apply determineWorktreeBase_bare.
Qed.

Lemma determineWorktreeBase_in_dot_git_witness :
  find (Js.endsWith ".git") ["/srv/project/x"; "/srv/project/.git"]
  = Some "/srv/project/.git"
  /\ Js.endsWith "/.git" "/srv/project/.git" = true
  /\ exists parent,
       "/srv/project/.git" = (parent ++ "/.git")%string
       /\ determineWorktreeBase ["/srv/project/x"; "/srv/project/.git"]
          = Some parent.
Proof.
  split; [reflexivity|]. split; [reflexivity|].
  exact (determineWorktreeBase_in_dot_git
           ["/srv/project/x"; "/srv/project/.git"] "/srv/project/.git"
           eq_refl eq_refl).
Defined.

(** ** The parsing of the worktree list *)

Lemma first_field_no_ws line : any_char Js.is_ws (Js.first_field line) = false.
Proof.
  induction line as [|c r IH]; [reflexivity|]. cbn [Js.first_field].
  destruct (Js.is_ws c) eqn:E; [reflexivity|].
  cbn [any_char]. now rewrite E, IH.
Qed.

(** X3.  No path that [getWorktreePaths] returns is empty or has a white
    space in it: a worktree whose path has a space is never reported
    whole. *)
Theorem parse_worktree_list_paths stdout p :
  In p (parse_worktree_list stdout) ->
  p <> EmptyString /\ any_char Js.is_ws p = false.
Proof.
  unfold parse_worktree_list. intros H. apply filter_In in H.
  destruct H as [Hin Hlen]. split.
  - intros ->. discriminate Hlen.
  - apply in_map_iff in Hin. destruct Hin as (line & <- & _).
    apply first_field_no_ws.
Qed.

Lemma parse_worktree_list_paths_witness :
  In "/my" (parse_worktree_list ("/my repo/feature  abc1234 [feature]" ++ Js.nl))
  /\ "/my" <> EmptyString /\ any_char Js.is_ws "/my" = false.
Proof.
  assert (Hin : In "/my" (parse_worktree_list
                            ("/my repo/feature  abc1234 [feature]" ++ Js.nl)))
    by (left; reflexivity).
  split; [exact Hin|].
  exact (parse_worktree_list_paths _ "/my" Hin).
Defined.

(** *** Reading back what git prints *)







Lemma any_char_app P a b :
  any_char P (a ++ b) = any_char P a || any_char P b.
Proof.
  induction a as [|c r IH]; [reflexivity|].
  cbn [append any_char]. now rewrite IH, orb_assoc.
Qed.









(** ** The confirmation *)

Lemma lower_y c : Js.lower c = "y"%char -> c = "y"%char \/ c = "Y"%char.
Proof.
  destruct c as [[] [] [] [] [] [] [] []]; vm_compute; intros H;
    try discriminate H; auto.
Qed.

Lemma lower_e c : Js.lower c = "e"%char -> c = "e"%char \/ c = "E"%char.
Proof.
  destruct c as [[] [] [] [] [] [] [] []]; vm_compute; intros H;
    try discriminate H; auto.
Qed.

Lemma lower_s c : Js.lower c = "s"%char -> c = "s"%char \/ c = "S"%char.
Proof.
  destruct c as [[] [] [] [] [] [] [] []]; vm_compute; intros H;
    try discriminate H; auto.
Qed.

(** X5.  [askForConfirmation] takes exactly ten answers for a yes: [y] and
    [yes] in any mix of cases.  The empty answer, and an answer with a
    space around it, decline. *)
Theorem affirmative_spellings answer :
  affirmative (Some answer) = true <-> In answer yes_spellings.
Proof.
  split.
  - cbn [affirmative]. intros H. apply orb_true_iff in H.
    destruct H as [H|H]; apply String.eqb_eq in H.
    + destruct answer as [|c1 [|c2 r]]; try discriminate H.
      cbn [Js.toLowerCase] in H. injection H as H1.
      destruct (lower_y c1 H1) as [-> | ->]; cbn; auto.
    + destruct answer as [|c1 [|c2 [|c3 [|c4 r]]]]; try discriminate H.
      cbn [Js.toLowerCase] in H. injection H as H1 H2 H3.
      destruct (lower_y c1 H1) as [-> | ->];
        destruct (lower_e c2 H2) as [-> | ->];
        destruct (lower_s c3 H3) as [-> | ->]; cbn; auto 12.
  - intros H. cbn in H.
    repeat (destruct H as [<- | H]; [reflexivity|]). contradiction.
Qed.

(** ** Where [remove] may be run *)

Section WhereToRun.

Context {W : Type} {B : Backend W}.

Implicit Type s : State W.

(** X6.  [isCurrentDirectoryWorktree] never throws nor exits, issues only
    read-only queries and prints nothing; it answers [true] exactly when
    the list could be read, has a base, and the current directory is in
    the list and is not the base. *)
Theorem isCurrentDirectoryWorktree_answer s :
  exists answer s',
    isCurrentDirectoryWorktree s = (Done answer, s')
    /\ cwd s' = cwd s
    /\ mutations (trace s') = mutations (trace s)
    /\ outputs (trace s') = outputs (trace s)
    /\ (answer = true <->
        exists worktreePaths base,
          getWorktreePaths s = (Done worktreePaths, s')
          /\ determineWorktreeBase worktreePaths = Some base
          /\ cwd s <> base /\ In (cwd s) worktreePaths).
Proof.
  assert (Hquiet : forall answer s',
    isCurrentDirectoryWorktree s = (Done answer, s') ->
    cwd s' = cwd s /\ mutations (trace s') = mutations (trace s)
    /\ outputs (trace s') = outputs (trace s)).
  { intros answer s' H.
    destruct (query_run_quiet _ _ _ _ calm_isCurrentDirectoryWorktree H)
      as (H1 & H2 & H3 & _). auto. }
  destruct (getWorktreePaths s) as [[paths|e|c] s1] eqn:Hlist.
  - destruct (determineWorktreeBase paths) as [base|] eqn:Hbase.
    + pose proof (isCurrentDirectoryWorktree_listed _ _ _ _ Hlist Hbase) as Hrun.
      eexists _, s1. split; [exact Hrun|].
      destruct (Hquiet _ _ Hrun) as (H1 & H2 & H3).
      repeat (split; [assumption|]). split.
      * intros H. apply andb_true_iff in H. destruct H as [Hne Hin].
        exists paths, base. repeat split; auto.
        -- intros E. rewrite E, String.eqb_refl in Hne. discriminate Hne.
        -- now apply includes_In.
      * intros (paths' & base' & Hp & Hb & Hne & Hin).
        injection Hp as <-. rewrite Hbase in Hb. injection Hb as <-.
        apply andb_true_iff. split.
        -- destruct (String.eqb_spec (cwd s) base); [contradiction|reflexivity].
        -- now apply includes_In.
    + pose proof (isCurrentDirectoryWorktree_baseless _ _ _ Hlist Hbase) as Hrun.
      exists false, s1. split; [exact Hrun|].
      destruct (Hquiet _ _ Hrun) as (H1 & H2 & H3).
      repeat (split; [assumption|]). split; [discriminate|].
      intros (paths' & base' & Hp & Hb & _). injection Hp as <-. congruence.
  - pose proof (isCurrentDirectoryWorktree_unlisted _ _ _ Hlist) as Hrun.
    exists false, s1. split; [exact Hrun|].
    destruct (Hquiet _ _ Hrun) as (H1 & H2 & H3).
    repeat (split; [assumption|]). split; [discriminate|].
    intros (paths' & base' & Hp & _). discriminate Hp.
  - destruct (wp_run _ _ _ _ _ (calm_getWorktreePaths s) Hlist)
      as (d & _ & _ & _ & []).
Qed.

(** X7.  Outside a repository.  When [git rev-parse --git-dir] fails, [add]
    (given a branch name) and [remove] stop with exit code 1 after that
    one command; under the heading of the script, standard error gets
    the fixed message, not the one of git. *)
Theorem not_a_repository (i : Invocation) s e w :
  i <> Add [] ->
  run (cwd s) GitDir (world s) = (Failed e, w) ->
  invoke i s
  = (Exited 1,
     mkState w (cwd s)
       (trace s ++ [EvRun (cwd s) GitDir (Failed e);
                    EvOut (error_heading i);
                    EvErr "Not in a git repository"])).
Proof.
  intros Hi Hrun.
  assert (Hv : validateGitRepository s
               = (Thrown "Not in a git repository",
                  mkState w (cwd s) (trace s ++ [EvRun (cwd s) GitDir (Failed e)]))).
  { unfold validateGitRepository, try_catch, bind, sh. now rewrite Hrun. }
  destruct i as [[|branchName rest]|args]; [contradiction| |].
  - cbn [invoke add_main error_heading]. unfold add_catch.
    rewrite (try_catch_thrown _ _ _ _ _ (bind_thrown _ _ _ _ _ Hv)).
    unfold bind, console_log, console_error, process_exit, emit.
    cbn [world cwd trace]. now rewrite <- !app_assoc.
  - cbn [invoke error_heading]. unfold remove_main. cbv zeta.
    rewrite (try_catch_thrown _ _ _ _ _ (bind_thrown _ _ _ _ _ Hv)).
    unfold bind, console_log, console_error, process_exit, emit.
    cbn [world cwd trace]. now rewrite <- !app_assoc.
Qed.

End WhereToRun.

Lemma not_a_repository_witness :
  Remove ["-f"] <> Add []
  /\ invoke (B:=scripted (fun _ _ => Failed "fatal: not a git repository") None [])
       (Remove ["-f"]) (start "/tmp")
     = (Exited 1,
        mkState tt "/tmp"
          [EvRun "/tmp" GitDir (Failed "fatal: not a git repository");
           EvOut "❌ Error removing worktree:";
           EvErr "Not in a git repository"]).
Proof.
  assert (Hi : Remove ["-f"] <> Add []) by discriminate.
  split; [exact Hi|].
  exact (not_a_repository
           (B:=scripted (fun _ _ => Failed "fatal: not a git repository") None [])
           (Remove ["-f"]) (start "/tmp") "fatal: not a git repository" tt
           Hi eq_refl).
Defined.

(** ** What [add] does and does not *)

Section AddFootprint.

Context {W : Type} {B : Backend W}.

Implicit Type s : State W.

Lemma getWorktreePaths_parsed s worktreePaths s' :
  getWorktreePaths s = (Done worktreePaths, s') ->
  exists stdout, worktreePaths = parse_worktree_list stdout.
Proof.
  unfold getWorktreePaths, bind, sh, ret.
  destruct (run (cwd s) WorktreeList (world s)) as [[out|e] w];
    intros H; [|discriminate H].
  injection H as <- _. now exists out.
Qed.

Lemma branchExistsLocally_done branchName s :
  exists answer s', branchExistsLocally branchName s = (Done answer, s').
Proof.
  unfold branchExistsLocally, try_catch, bind, sh, ret.
  destruct (run (cwd s) (ShowRefLocal branchName) (world s)) as [[out|e] w];
    eauto.
Qed.

(** X8.  A branch name with a white space in it.  The path [base/branchName]
    is never found in the worktree list, whose paths are cut at the
    first space: [add] does not switch, it issues a [git worktree add]
    for that path, even if a worktree is there already. *)
Theorem add_spaced_name_never_switches branchName rest s0 s1 s2 s3
  mainBranch worktreePaths base :
  validateGitRepository s0 = (Done tt, s1) ->
  discoverMainBranch s1 = (Done mainBranch, s2) ->
  getWorktreePaths s2 = (Done worktreePaths, s3) ->
  determineWorktreeBase worktreePaths = Some base ->
  any_char Js.is_ws branchName = true ->
  let targetPath := (base ++ "/" ++ branchName)%string in
  ~ In targetPath worktreePaths
  /\ exists c,
       mutations (trace (snd (add_main (branchName :: rest) s0)))
       = mutations (trace s0) ++ [c]
       /\ (c = WorktreeAdd targetPath branchName
           \/ c = WorktreeAddNew targetPath mainBranch branchName).
Proof.
  intros H1 H2 H3 H4 Hws targetPath.
  assert (Hnot : ~ In targetPath worktreePaths).
  { intros Hin. destruct (getWorktreePaths_parsed _ _ _ H3) as [out ->].
    unfold parse_worktree_list in Hin. apply filter_In in Hin.
    destruct Hin as [Hin _]. apply in_map_iff in Hin.
    destruct Hin as (line & Hline & _).
    pose proof (first_field_no_ws line) as Hno. rewrite Hline in Hno.
    unfold targetPath in Hno. rewrite !any_char_app, Hws, !orb_true_r in Hno.
    discriminate Hno. }
  split; [exact Hnot|].
  pose proof (add_main_after_listing branchName rest _ _ _ _ _ _ _ H1 H2 H3 H4)
    as Hrun. cbv zeta in Hrun. fold targetPath in Hrun.
  destruct (listing_is_quiet _ _ _ _ _ _ H1 H2 H3) as (d0 & E0 & P0).
  assert (Hf : Js.truthy_opt
                 (find (fun path => String.eqb path targetPath) worktreePaths)
               = false).
  { destruct (Js.truthy_opt _) eqn:E; [|reflexivity].
    exfalso. apply Hnot.
    now apply (find_eqb_truthy targetPath worktreePaths
                 (truthy_path base branchName)). }
  destruct (branchExistsLocally_done branchName s3) as (answer & s4 & Hb).
  rewrite Hf, (add_catch_bind_done _ _ _ _ _ Hb) in Hrun.
  destruct (calm_run _ _ _ _ _ (branchExistsLocally_benign branchName) Hb)
    as (d4 & E4 & P4 & _).
  assert (E : trace s4 = trace s0 ++ (d0 ++ d4))
    by now rewrite E4, E0, app_assoc.
  assert (P : forallb benign (d0 ++ d4) = true)
    by now rewrite forallb_app, P0, P4.
  rewrite Hrun. destruct answer.
  - exists (WorktreeAdd targetPath branchName). split; [|now left].
    apply (transition_outcome _ targetPath _ s0 s4 (d0 ++ d4) E P).
    apply createWorktreeWithExistingBranch_wp.
  - exists (WorktreeAddNew targetPath mainBranch branchName). split; [|now right].
    apply (transition_outcome _ targetPath _ s0 s4 (d0 ++ d4) E P).
    apply createWorktreeWithNewBranch_wp.
Qed.

End AddFootprint.

Lemma add_spaced_name_never_switches_witness :
  any_char Js.is_ws "my branch" = true
  /\ ~ In "/repo/my branch" ["/repo"; "/repo/feature"]
  /\ exists c,
       mutations (trace (snd (add_main (B:=repo) ["my branch"] (start "/repo"))))
       = mutations (trace (start "/repo")) ++ [c]
       /\ (c = WorktreeAdd "/repo/my branch" "my branch"
           \/ c = WorktreeAddNew "/repo/my branch" "main" "my branch").
Proof.
  split; [reflexivity|].
  exact (add_spaced_name_never_switches (B:=repo) "my branch" []
           (start "/repo") (validated "/repo") (resolved "/repo")
           (listed (resolved "/repo")) "main" ["/repo"; "/repo/feature"] "/repo"
           eq_refl eq_refl eq_refl eq_refl eq_refl).
Defined.

(** *** Probing computations *)

Lemma probing_benign e : probing e = true -> benign e = true.
Proof. destruct e; simpl; congruence. Qed.

Lemma query_probing e : query e = true -> probing e = true.
Proof. destruct e; simpl; congruence. Qed.

Lemma probing_errors d : forallb probing d = true -> errors d = [].
Proof.
  induction d as [|e d IH]; [reflexivity|]. simpl. intros H.
  apply andb_true_iff in H. destruct H as [He Hd].
  destruct e; try discriminate He; simpl; now apply IH.
Qed.

Lemma probing_mutations d : forallb probing d = true -> mutations d = [].
Proof.
  intros H. apply benign_mutations.
  now apply (forallb_weaken probing benign d probing_benign).
Qed.

Lemma probing_emitted_paths d :
  forallb probing d = true -> emitted_paths d = [].
Proof.
  intros H. apply benign_emitted_paths.
  now apply (forallb_weaken probing benign d probing_benign).
Qed.

Lemma probing_stays_put d e :
  forallb probing d = true -> In e d -> stays_put e.
Proof.
  intros H Hin. pose proof (forallb_In _ _ _ H Hin) as He.
  destruct e; try discriminate He; exact I.
Qed.

Lemma probing_no_refused_mutation d dir c m :
  forallb probing d = true -> In (EvRun dir c (Failed m)) d ->
  mutating c = false.
Proof.
  intros H Hin. pose proof (forallb_In _ _ _ H Hin) as He.
  simpl in He. now destruct (mutating c).
Qed.

Lemma probing_no_mutation d dir c reply :
  forallb probing d = true -> In (EvRun dir c reply) d ->
  mutating c = false.
Proof.
  intros H Hin. pose proof (forallb_In _ _ _ H Hin) as He.
  simpl in He. now destruct (mutating c).
Qed.

Section Probing.

Context {W : Type} {B : Backend W}.

Lemma validateGitRepository_probing : calm probing validateGitRepository.
Proof. apply (calm_weaken query probing _ query_probing calm_validateGitRepository). Qed.

Lemma getWorktreePaths_probing : calm probing getWorktreePaths.
Proof. apply (calm_weaken query probing _ query_probing calm_getWorktreePaths). Qed.

Lemma branchExistsLocally_probing b : calm probing (branchExistsLocally b).
Proof.
  apply (calm_weaken query probing _ query_probing (calm_branchExistsLocally b)).
Qed.

Lemma getCurrentBranch_probing path : calm probing (getCurrentBranch path).
Proof.
  apply (calm_weaken query probing _ query_probing (calm_getCurrentBranch path)).
Qed.

Lemma isCurrentDirectoryWorktree_probing : calm probing isCurrentDirectoryWorktree.
Proof.
  apply (calm_weaken query probing _ query_probing
           calm_isCurrentDirectoryWorktree).
Qed.

Lemma tryCommonBranches_probing names : calm probing (tryCommonBranches names).
Proof.
  induction names as [|b rest IH]; simpl; [auto with calm|].
  apply calm_bind.
  - auto 20 with calm.
  - intros [x|]; auto with calm.
Qed.

Lemma discoverMainBranch_probing : calm probing discoverMainBranch.
Proof.
  unfold discoverMainBranch, tryRemoteHead, tryFirstBranch.
  apply calm_bind.
  - apply calm_try_catch; [|auto with calm].
    apply calm_bind; [auto with calm|]. intros out. cbv zeta.
    destruct (Js.truthy (Js.trim out)); [|auto with calm].
    destruct (Js.match_after _ _); auto 10 with calm.
  - intros [b|]; [auto with calm|].
    apply calm_bind; [apply tryCommonBranches_probing|].
    intros [b|]; [auto with calm|].
    apply calm_bind.
    + apply calm_try_catch; [|auto with calm].
      apply calm_bind; [auto with calm|]. intros out. cbv zeta.
      destruct (Js.truthy _); auto 10 with calm.
    + intros [b|]; auto 10 with calm.
Qed.

End Probing.

(** A step through a function of git-worktree-utils.ts, keeping track of
    what it may have printed. *)
Ltac wp_probe :=
  lazymatch goal with
  | |- wp (bind validateGitRepository _) _ _ =>
      wp_calm_step validateGitRepository_probing
  | |- wp (bind discoverMainBranch _) _ _ =>
      wp_calm_step discoverMainBranch_probing
  | |- wp (bind getWorktreePaths _) _ _ =>
      wp_calm_step getWorktreePaths_probing
  | |- wp (bind (branchExistsLocally ?b) _) _ _ =>
      wp_calm_step (branchExistsLocally_probing b)
  | |- wp (bind isCurrentDirectoryWorktree _) _ _ =>
      wp_calm_step isCurrentDirectoryWorktree_probing
  | |- wp (bind (getCurrentBranch ?p) _) _ _ =>
      wp_calm_step (getCurrentBranch_probing p)
  | |- wp (determineWorktreeBaseM ?ps) _ _ =>
      unfold determineWorktreeBaseM;
      destruct (determineWorktreeBase ps) eqn:?
  | |- wp (process_chdir _) _ _ =>
      apply wp_chdir; intros _; cbn beta iota zeta
  end.

(** Rewrites what the probing segments of a trace contribute. *)
Ltac forget_probing :=
  repeat match goal with
         | H : forallb probing ?d = true |- _ =>
             progress (rewrite ?(probing_mutations d H),
                         ?(probing_emitted_paths d H), ?(probing_errors d H))
         end.

Ltac trace_facts :=
  repeat rewrite mutations_app; repeat rewrite emitted_paths_app;
  repeat rewrite errors_app; forget_probing.

(** ** Every run of the scripts *)

Lemma mutation_in_trace d dir c r :
  In (EvRun dir c r) d -> mutating c = true -> In c (mutations d).
Proof.
  intros Hin Hc. unfold mutations. apply filter_In. split; [|exact Hc].
  unfold commands. apply in_flat_map. exists (EvRun dir c r).
  split; [exact Hin|now left].
Qed.

(** Closes the case of a refused command in the report of an error. *)
Ltac refused_case Hin Hmut :=
  split_in Hin;
  try match goal with
      | Hd : forallb probing ?d = true, H : In _ ?d |- _ =>
          rewrite (probing_no_refused_mutation _ _ _ _ Hd H) in Hmut;
          discriminate Hmut
      end;
  try discriminate;
  try (injection Hin as <- <- <-; first [reflexivity | discriminate Hmut]).

Section AddRuns.
Context {W : Type} {B : Backend W}.
Implicit Type s : State W.

Lemma add_main_post args s :
  wp (add_main args) (fun r d s' => add_post args s r d s') s.
Proof.
  unfold add_main, add_catch, switchToExistingWorktree,
    createWorktreeWithExistingBranch, createWorktreeWithNewBranch,
    switchToDirectory.
  destruct args as [|branchName rest].
  all: repeat first [wp_probe | wp_step].
  all: unfold add_post.
  all: cbn [cwd emit world trace] in *.
  all: split; [congruence|].
  all: split; [intros ?ev Hin; split_in Hin; subst;
               try exact I;
               match goal with
               | Hd : forallb probing ?d = true, H : In _ ?d |- _ =>
                   exact (probing_stays_put _ _ Hd H)
               end|].
  all: trace_facts.
  all: split;
    [first [left; reflexivity
           | right; eexists _, EmptyString, _, _; split;
             [reflexivity|left; reflexivity]
           | right; do 4 eexists; split;
             [reflexivity|right; reflexivity]]|].
  all: split.
  all: try (intros H; discriminate H).
  all: try (intros _; split; [reflexivity|];
            split; [|do 3 eexists; split; reflexivity];
            intros ?dir ?c ?m Hin; split_in Hin; try discriminate Hin;
            match goal with
            | Hd : forallb probing ?d = true, H : In _ ?d |- _ =>
                exact (probing_no_refused_mutation _ _ _ _ Hd H)
            end).
  all: try (intros H; exfalso; apply H; reflexivity).
  all: intros _; (split; [reflexivity|]); (split; [reflexivity|]).
  all: intros Hargs; try (exfalso; apply Hargs; reflexivity).
  all: eexists; (split; [reflexivity|]).
  all: intros ?dir ?c ?m Hin Hmut.
  all: refused_case Hin Hmut.
Qed.

(** X9.  Whatever its arguments and whatever git answers, a run of [add]
    stays in the directory it was started in, never prompts, and issues
    at most one command that changes the repository: a
    [git worktree add] for its first argument, into a directory named
    after it. *)
Theorem add_footprint args s :
  wp (add_main args)
     (fun _ d s' =>
        cwd s' = cwd s
        /\ (forall e, In e d -> stays_put e)
        /\ (mutations d = []
            \/ exists base mainBranch branchName rest,
                 args = branchName :: rest
                 /\ (mutations d
                     = [WorktreeAdd (base ++ "/" ++ branchName) branchName]
                     \/ mutations d
                        = [WorktreeAddNew (base ++ "/" ++ branchName)
                             mainBranch branchName]))) s.
Proof.
  eapply wp_conseq; [apply add_main_post|].
  intros r d s' (Hcwd & Hput & Hmut & _). now repeat split.
Qed.

(** X10.  A run of [add] ends in one of two ways.  It returns, with nothing
    on standard error and exactly one structured line, whose path ends
    in the first argument; or it exits with status 1 and no structured
    line, and, when it was given an argument, exactly one line on
    standard error. *)
Theorem add_outcome args s :
  wp (add_main args)
     (fun r d _ =>
        (r = Done tt
         /\ errors d = []
         /\ exists base branchName rest,
              args = branchName :: rest
              /\ emitted_paths d = [(base ++ "/" ++ branchName)%string])
        \/ (r = Exited 1
            /\ emitted_paths d = []
            /\ (args <> [] -> exists message, errors d = [message]))) s.
Proof.
  eapply wp_conseq; [apply add_main_post|].
  intros r d s' (_ & _ & _ & Hdone & Hfail).
  destruct r as [[]|e|code].
  - left. destruct (Hdone eq_refl) as (He & _ & Hp). now repeat split.
  - right. destruct Hfail as (Hr & _); [discriminate|discriminate Hr].
  - right. destruct Hfail as (Hr & Hp & He); [discriminate|].
    repeat split; [exact Hr|exact Hp|].
    intros Hargs. destruct (He Hargs) as (message & Hm & _).
    now exists message.
Qed.

(** X11.  When git refuses the [git worktree add] of a run of [add], the run
    exits with status 1, prints no structured line, and standard error
    holds git's message and nothing else. *)
Theorem add_refused_worktree args s :
  wp (add_main args)
     (fun r d _ =>
        forall dir c m,
          In (EvRun dir c (Failed m)) d -> mutating c = true ->
          r = Exited 1 /\ errors d = [m] /\ emitted_paths d = []) s.
Proof.
  eapply wp_conseq; [apply add_main_post|].
  intros r d s' (_ & _ & Hmut & Hdone & Hfail) dir c m Hin Hc.
  destruct r as [[]|e|code].
  - destruct (Hdone eq_refl) as (_ & Hno & _).
    rewrite (Hno _ _ _ Hin) in Hc. discriminate Hc.
  - destruct Hfail as (Hr & _); [discriminate|discriminate Hr].
  - destruct Hfail as (Hr & Hp & He); [discriminate|].
    split; [exact Hr|]. split; [|exact Hp].
    destruct args as [|branchName rest].
    + exfalso. pose proof (mutation_in_trace _ _ _ _ Hin Hc) as Hm.
      destruct Hmut as [Hnil|(? & ? & ? & ? & Habs & _)];
        [rewrite Hnil in Hm; destruct Hm|discriminate Habs].
    + destruct He as (message & Hm & Hsame); [discriminate|].
      now rewrite (Hsame _ _ _ Hin Hc).
Qed.

End AddRuns.

(** *** The explicit part of a trace *)

Lemma mutations_explicit d : mutations d = mutations (explicit_part d).
Proof.
  induction d as [|e d IH]; [reflexivity|].
  change (e :: d) with ([e] ++ d). unfold explicit_part.
  rewrite filter_app, !mutations_app. fold (explicit_part d). rewrite <- IH.
  f_equal. destruct e; cbn [filter probing negb]; try reflexivity.
  - unfold mutations. cbn [commands flat_map app filter].
    destruct (mutating c) eqn:E; cbn [negb commands flat_map app filter];
      rewrite ?E; reflexivity.
  - now destruct (is_path_line line).
Qed.

Lemma errors_explicit d : errors d = errors (explicit_part d).
Proof.
  induction d as [|e d IH]; [reflexivity|].
  change (e :: d) with ([e] ++ d). unfold explicit_part.
  rewrite filter_app, !errors_app. fold (explicit_part d). rewrite <- IH.
  f_equal. destruct e; cbn [filter probing negb]; try reflexivity.
  - now destruct (mutating c).
  - now destruct (is_path_line line).
Qed.

Lemma emitted_paths_explicit d :
  emitted_paths d = emitted_paths (explicit_part d).
Proof.
  induction d as [|e d IH]; [reflexivity|].
  change (e :: d) with ([e] ++ d). unfold explicit_part.
  rewrite filter_app, !emitted_paths_app. fold (explicit_part d). rewrite <- IH.
  f_equal. destruct e; cbn [filter probing negb]; try reflexivity.
  - now destruct (mutating c).
  - unfold emitted_paths. cbn [outputs flat_map app filter].
    destruct (is_path_line line) eqn:E;
      cbn [negb outputs flat_map app filter]; rewrite ?E; reflexivity.
Qed.

Lemma explicit_part_skip d rest l :
  forallb probing d = true -> explicit_part rest = l ->
  explicit_part (d ++ rest) = l.
Proof.
  intros Hd <-. unfold explicit_part. rewrite filter_app.
  replace (filter (fun e => negb (probing e)) d) with (@nil Event);
    [reflexivity|].
  induction d as [|e d IH]; [reflexivity|]. simpl in *.
  apply andb_true_iff in Hd. destruct Hd as [He Hd]. rewrite He. simpl.
  now apply IH.
Qed.

Lemma explicit_part_app a b la lb :
  explicit_part a = la -> explicit_part b = lb ->
  explicit_part (a ++ b) = la ++ lb.
Proof. intros <- <-. apply filter_app. Qed.

(** Computes the explicit part of a trace made of probing segments and
    explicit events. *)
Ltac explicit_part_of :=
  lazymatch goal with
  | |- explicit_part (?d ++ ?rest) = _ =>
      first [ apply explicit_part_skip; [assumption|explicit_part_of]
            | apply explicit_part_app; [explicit_part_of|explicit_part_of] ]
  | |- explicit_part ?d = _ =>
      first [ rewrite <- (app_nil_r d); apply explicit_part_skip;
              [assumption|reflexivity]
            | reflexivity ]
  end.

(** Replaces a trace by its explicit part under [mutations], [errors] and
    [emitted_paths]. *)
Ltac to_explicit :=
  match goal with
  | |- context [mutations ?L] =>
      let H := fresh "Hexp" in
      eassert (H : explicit_part L = _) by explicit_part_of;
      rewrite ?(mutations_explicit L), ?(errors_explicit L),
        ?(emitted_paths_explicit L), ?H; clear H
  end.

Section RemoveRuns.
Context {W : Type} {B : Backend W}.
Implicit Type s : State W.

Lemma askForConfirmation_wp message s :
  wp (askForConfirmation message)
     (fun r d s' =>
        exists a,
          d = [EvAsk (message ++ " (y/N): ") a]
          /\ r = Done (affirmative a) /\ cwd s' = cwd s) s.
Proof.
  unfold askForConfirmation. wp_step. wp_step. apply wp_question.
  intros [answer|] w' _; cbn beta iota zeta.
  - wp_step. now exists (Some answer).
  - wp_step. now exists None.
Qed.

Lemma remove_main_post args s :
  wp (remove_main args) (fun r d s' => remove_post args s r d s') s.
Proof.
  unfold remove_main, switchToDirectory. cbv zeta.
  change (Js.includes args "--force" || Js.includes args "-f")
    with (forced args).
  repeat first
    [ wp_probe
    | lazymatch goal with
      | |- wp (askForConfirmation ?m) _ _ =>
          eapply wp_conseq; [apply askForConfirmation_wp|];
          let a := fresh "answer" in
          intros ? ? ? (a & -> & -> & ?); cbn beta iota zeta
      end
    | wp_step ].
  all: unfold remove_post.
  all: try match goal with
           | H : forced _ = _ |- _ => rewrite H
           end.
  all: cbn [cwd emit world trace] in *.
  all: repeat match goal with
              | H : cwd _ = _ |- _ => rewrite H
              end.
  all: split;
    [intros ?dir ?c ?reply Hin Hmut; split_in Hin; try discriminate Hin;
     try match goal with
         | Hd : forallb probing ?d = true, H : In _ ?d |- _ =>
             rewrite (probing_no_mutation _ _ _ _ Hd H) in Hmut;
             discriminate Hmut
         end;
     injection Hin as <- <- <-; find_in|].
  all: split;
    [intros Hf; try discriminate Hf; intros ?prompt ?a Hin;
     split_in Hin; try discriminate;
     try match goal with
     | Hd : forallb probing ?d = true, H : In _ ?d |- _ =>
         pose proof (forallb_In _ _ _ Hd H) as Hp; discriminate Hp
     end|].
  all: to_explicit.
  all: split;
    [intros Hmut;
     first [ exfalso; apply Hmut; reflexivity
           | left; reflexivity
           | right; eexists; split;
             [find_in|apply negb_false_iff; assumption] ]|].
  all: split;
    [unfold remove_sequences; cbn [In];
     first [ exists EmptyString; left; reflexivity
           | eexists; right; left; reflexivity
           | eexists; do 2 right; left; reflexivity
           | eexists; do 3 right; left; reflexivity
           | eexists; do 4 right; left; reflexivity ]|].
  all: split;
    [intros Hdone; try discriminate Hdone;
     (split;
      [match goal with
       | |- In ?c (mutations ?L) =>
           let l := eval lazy in (mutations L) in change (In c l)
       end; cbn [In]; tauto|]);
     (split; [reflexivity|]); (split; [find_in|reflexivity])|].
  all: intros Hr; try (exfalso; apply Hr; reflexivity).
  all: split; [reflexivity|].
  all: first
         [ left; repeat split; reflexivity
         | right; split; [reflexivity|];
           first [left; split; reflexivity | right; eexists; reflexivity] ].
Qed.

(** X12.  With the force flag a run of [remove] never prompts.  Without it, no
    command that changes the repository is issued unless the
    confirmation was asked and answered with a yes. *)
Theorem remove_needs_consent args s :
  wp (remove_main args)
     (fun _ d _ =>
        (forced args = true -> forall prompt a, ~ In (EvAsk prompt a) d)
        /\ (forced args = false -> mutations d <> [] ->
            exists a, In (EvAsk confirm_prompt a) d /\ affirmative a = true))
     s.
Proof.
  eapply wp_conseq; [apply remove_main_post|].
  intros r d s' (_ & Hforced & Hconsent & _). split; [exact Hforced|].
  intros Hf Hmut. destruct (Hconsent Hmut) as [Habs|H]; [congruence|exact H].
Qed.

(** X13.  The commands of a run of [remove] that change the repository are,
    in order: a checkout of the main branch, a detached checkout of it,
    and the removal of the worktree the run was started in; each is
    there only if the one before is, the detached checkout may be
    missing, and nothing else is ever changed. *)
Theorem remove_command_sequences args s :
  wp (remove_main args)
     (fun _ d _ =>
        exists mainBranch,
          In (mutations d) (remove_sequences (cwd s) mainBranch)) s.
Proof.
  eapply wp_conseq; [apply remove_main_post|].
  intros r d s' (_ & _ & _ & Hseq & _). exact Hseq.
Qed.

(** X14.  A run of [remove] that returns has removed the worktree it was
    started in, has written nothing on standard error, and has moved
    the process to the directory it ends in; with the force flag it has
    printed one structured line, with that directory, and without the
    flag none. *)
Theorem remove_success args s :
  wp (remove_main args)
     (fun r d s' =>
        r = Done tt ->
        In (WorktreeRemove (cwd s)) (mutations d)
        /\ errors d = []
        /\ In (EvChdir (cwd s') true) d
        /\ emitted_paths d = if forced args then [cwd s'] else []) s.
Proof.
  eapply wp_conseq; [apply remove_main_post|].
  intros r d s' (_ & _ & _ & _ & Hdone & _). exact Hdone.
Qed.


(** X16.  A run of [remove] never throws.  It returns; or it exits with
    status 0, having changed nothing and written nothing on standard
    error; or it exits with status 1, either having changed nothing and
    written nothing on standard error, or with exactly one line on
    standard error.  A run that does not return prints no structured
    line. *)
Theorem remove_outcome args s :
  wp (remove_main args)
     (fun r d _ =>
        r = Done tt
        \/ (emitted_paths d = []
            /\ ((r = Exited 0 /\ mutations d = [] /\ errors d = [])
                \/ (r = Exited 1
                    /\ ((mutations d = [] /\ errors d = [])
                        \/ exists message, errors d = [message]))))) s.
Proof.
  eapply wp_conseq; [apply remove_main_post|].
  intros r d s' (_ & _ & _ & _ & _ & Hfail).
  destruct r as [[]|e|code]; [now left| |]; right; apply Hfail; discriminate.
Qed.

End RemoveRuns.

(** ** The script before the utilities were split off *)

Section LegacyScript.

Context {W : Type} {B : Backend W}.

Implicit Type s : State W.

Lemma bind_ext {A C} (m : M W A) (f g : A -> M W C) s :
  (forall a s', f a s' = g a s') -> bind m f s = bind m g s.
Proof. intros H. unfold bind. destruct (m s) as [[a|e|c] s']; auto. Qed.

Lemma try_catch_ext {A} (m m' : M W A) handler s :
  m s = m' s -> try_catch m handler s = try_catch m' handler s.
Proof. intros H. unfold try_catch. now rewrite H. Qed.

Lemma getCurrentBranch_at base branchName s :
  getCurrentBranch (Some (base ++ "/" ++ branchName)%string) s
  = (result <- sh (ShowCurrent (Some (base ++ "/" ++ branchName)%string)) ;;
     ret (Js.trim result)) s.
Proof.
  unfold getCurrentBranch. cbn [Js.truthy_opt]. now rewrite truthy_path.
Qed.

Lemma show_current_then {C} path (k : string -> M W C) s :
  (currentBranch <- (result <- sh (ShowCurrent path) ;; ret (Js.trim result)) ;;
   k currentBranch) s
  = (currentBranch <- sh (ShowCurrent path) ;; k (Js.trim currentBranch)) s.
Proof.
  unfold bind, ret. now destruct (sh (ShowCurrent path) s) as [[a|e|c] s'].
Qed.

Lemma legacy_show_current {C} base branchName (k : string -> M W C) s :
  (currentBranch <- getCurrentBranch (Some (base ++ "/" ++ branchName)%string) ;;
   k currentBranch) s
  = (currentBranch <- sh (ShowCurrent (Some (base ++ "/" ++ branchName)%string)) ;;
     k (Js.trim currentBranch)) s.
Proof.
  rewrite <- show_current_then. unfold bind at 1 3.
  now rewrite getCurrentBranch_at.
Qed.

Lemma legacy_switchToExistingWorktree base branchName s :
  Legacy.switchToExistingWorktree (base ++ "/" ++ branchName) s
  = switchToExistingWorktree (base ++ "/" ++ branchName) s.
Proof.
  unfold Legacy.switchToExistingWorktree, switchToExistingWorktree.
  apply bind_ext. intros _ s1. now rewrite legacy_show_current.
Qed.

Lemma legacy_createWorktreeWithExistingBranch base branchName s :
  Legacy.createWorktreeWithExistingBranch (base ++ "/" ++ branchName)
    branchName s
  = createWorktreeWithExistingBranch (base ++ "/" ++ branchName) branchName s.
Proof.
  unfold Legacy.createWorktreeWithExistingBranch,
    createWorktreeWithExistingBranch.
  apply bind_ext. intros _ s1. apply bind_ext. intros _ s2.
  now rewrite legacy_show_current.
Qed.

Lemma legacy_createWorktreeWithNewBranch base branchName mainBranch s :
  Legacy.createWorktreeWithNewBranch (base ++ "/" ++ branchName)
    branchName mainBranch s
  = createWorktreeWithNewBranch (base ++ "/" ++ branchName) branchName
      mainBranch s.
Proof.
  unfold Legacy.createWorktreeWithNewBranch, createWorktreeWithNewBranch.
  apply bind_ext. intros _ s1. apply bind_ext. intros _ s2.
  apply bind_ext. intros _ s3. now rewrite legacy_show_current.
Qed.

(** X17.  Given a branch name, the script of before the split and [add] do the
    same: from every state they issue the same commands, print the same
    lines and end the same way.  Without an argument both print a usage
    line, each with its own command name, and exit with status 1. *)
Theorem legacy_main_is_add branchName rest s :
  Legacy.main (branchName :: rest) s = add_main (branchName :: rest) s
  /\ Legacy.main [] s
     = (Exited 1, emit (EvOut "Usage: gwt <branch-name>") s)
  /\ add_main [] s
     = (Exited 1, emit (EvOut "Usage: gwtadd <branch-name>") s).
Proof.
  split; [|split; reflexivity].
  unfold Legacy.main, add_main, add_catch. apply try_catch_ext.
  apply bind_ext. intros _ s1. apply bind_ext. intros mainBranch s2.
  apply bind_ext. intros worktreePaths s3.
  apply bind_ext. intros worktreeBase s4. cbv zeta.
  destruct (Js.truthy_opt _).
  - apply legacy_switchToExistingWorktree.
  - apply bind_ext. intros [|] s5.
    + apply legacy_createWorktreeWithExistingBranch.
    + apply legacy_createWorktreeWithNewBranch.
Qed.

End LegacyScript.

(** ** The init script *)

Section InitFacts.

Import Init.

Implicit Type s : State Disk.

Lemma startsWith_app p rest : Js.startsWith p (p ++ rest) = true.
Proof.
  induction p as [|c p IH]; [reflexivity|]. cbn [append Js.startsWith].
  now rewrite Ascii.eqb_refl, IH.
Qed.

Lemma includes_here pattern rest : str_includes (pattern ++ rest) pattern = true.
Proof.
  assert (H : forall text, Js.startsWith pattern text = true ->
                           str_includes text pattern = true)
    by (intros text H; destruct text; cbn [str_includes]; now rewrite H).
  apply H, startsWith_app.
Qed.

Lemma includes_app before pattern rest :
  str_includes (before ++ pattern ++ rest) pattern = true.
Proof.
  induction before as [|c b IH]; [exact (includes_here pattern rest)|].
  cbn [append str_includes]. rewrite IH. apply orb_true_r.
Qed.

Lemma append_assoc (a b c : string) :
  ((a ++ b) ++ c)%string = (a ++ b ++ c)%string.
Proof. induction a as [|x a IH]; [reflexivity|]. cbn [append]. now rewrite IH. Qed.

Lemma append_nil_r (a : string) : (a ++ EmptyString)%string = a.
Proof. induction a as [|x a IH]; [reflexivity|]. cbn [append]. now rewrite IH. Qed.

Lemma newContent_includes scriptPath zshrcContent :
  str_includes (newContent scriptPath zshrcContent) (sourceCommand scriptPath)
  = true.
Proof.
  unfold newContent.
  set (before := (zshrcContent ++ _)%string).
  replace (before ++ Js.nl ++ commentLine ++ Js.nl
           ++ sourceCommand scriptPath ++ Js.nl)%string
    with ((before ++ Js.nl ++ commentLine ++ Js.nl)
          ++ sourceCommand scriptPath ++ Js.nl)%string
    by (now rewrite !append_assoc).
  apply includes_app.
Qed.

Ltac run_init :=
  cbn [fst snd world trace cwd zshrc script_exists write_error negb].

(** All the runs of the script. *)
Lemma main_cases scriptPath s :
  let r := main scriptPath s in
  let lines := fun l => trace (snd r) = trace s ++ EvOut "💫 Initializing @mikko/scripts..." :: l in
  cwd (snd r) = cwd s
  /\ ((script_exists (world s) = false
       /\ fst r = Exited 1 /\ world (snd r) = world s
       /\ lines [EvErr "L Error: src/bash-functionality.sh not found"])
      \/ (script_exists (world s) = true
          /\ exists message,
               zshrc (world s) = Unreadable message
               /\ fst r = Exited 1 /\ world (snd r) = world s
               /\ lines [EvErr ("L Error: " ++ message)])
      \/ (script_exists (world s) = true
          /\ exists c,
               content_of (zshrc (world s)) = Some c
               /\ str_includes c (sourceCommand scriptPath) = true
               /\ fst r = Done tt /\ world (snd r) = world s
               /\ lines [EvOut msg_already])
      \/ (script_exists (world s) = true
          /\ exists c message,
               content_of (zshrc (world s)) = Some c
               /\ str_includes c (sourceCommand scriptPath) = false
               /\ write_error (world s) = Some message
               /\ fst r = Exited 1 /\ world (snd r) = world s
               /\ lines [EvErr ("L Error: " ++ message)])
      \/ (script_exists (world s) = true
          /\ exists c,
               content_of (zshrc (world s)) = Some c
               /\ str_includes c (sourceCommand scriptPath) = false
               /\ write_error (world s) = None
               /\ fst r = Done tt
               /\ world (snd r)
                  = mkDisk true (Holds (newContent scriptPath c)) None
               /\ exists l, lines l /\ errors l = [])).
Proof.
  destruct s as [[present file werr] dir t].
  unfold main, try_catch, bind, existsSync_script, existsSync_zshrc,
    readFileSync_zshrc, writeFileSync_zshrc, console_log, console_error,
    process_exit, ret, emit.
  cbv zeta.
  destruct present; run_init.
  2:{ split; [reflexivity|]. left.
      rewrite <- List.app_assoc. now repeat split. }
  destruct file as [|c|message]; run_init.
  3:{ split; [reflexivity|]. right. left. split; [reflexivity|].
      exists message. rewrite <- List.app_assoc. now repeat split. }
  all: match goal with
       | |- context [str_includes ?c ?p] => destruct (str_includes c p) eqn:Hinc
       end; run_init.
  all: try (split; [reflexivity|]; do 2 right; left; split; [reflexivity|];
            eexists; rewrite <- List.app_assoc; now repeat split).
  all: destruct werr as [message|]; run_init.
  all: try (split; [reflexivity|]; do 3 right; left; split; [reflexivity|];
            eexists _, message; rewrite <- List.app_assoc; now repeat split).
  all: split; [reflexivity|]; do 4 right; split; [reflexivity|];
    eexists; (split; [reflexivity|]); (split; [exact Hinc|]);
    do 3 (split; [reflexivity|]);
    eexists; rewrite <- !List.app_assoc; split; reflexivity.
Qed.

Lemma sourceCommand_absent scriptPath :
  str_includes EmptyString (sourceCommand scriptPath) = false.
Proof. reflexivity. Qed.

(** X18.  Running the script a second time changes nothing: whatever the
    first run did, the second leaves the disk as the first left it; and
    after a first run that returned, the second returns too, having
    only said that the line is already there. *)
Theorem init_twice scriptPath s :
  world (snd (main scriptPath (snd (main scriptPath s))))
  = world (snd (main scriptPath s))
  /\ (fst (main scriptPath s) = Done tt ->
      main scriptPath (snd (main scriptPath s))
      = (Done tt,
         mkState (world (snd (main scriptPath s)))
           (cwd (snd (main scriptPath s)))
           (trace (snd (main scriptPath s))
            ++ [EvOut "💫 Initializing @mikko/scripts...";
                EvOut msg_already]))).
Proof.
  destruct s as [[present file werr] dir t].
  unfold main, try_catch, bind, existsSync_script, existsSync_zshrc,
    readFileSync_zshrc, writeFileSync_zshrc, console_log, console_error,
    process_exit, ret, emit.
  cbv zeta.
  destruct present; run_init;
    [|split; [reflexivity|intros H; discriminate H]].
  destruct file as [|c|message]; run_init.
  3:{ split; [reflexivity|intros H; discriminate H]. }
  all: match goal with
       | |- context [str_includes ?c ?p] => destruct (str_includes c p) eqn:Hinc
       end; run_init; rewrite ?Hinc; run_init.
  all: try (split; [reflexivity|intros _; now rewrite <- List.app_assoc]).
  all: destruct werr as [message|]; run_init; rewrite ?Hinc; run_init.
  all: try (split; [reflexivity|intros H; discriminate H]).
  all: rewrite newContent_includes; run_init.
  all: split; [reflexivity|intros _; now rewrite <- List.app_assoc].
Qed.

(** X19.  The script never loses what [~/.zshrc] holds: whatever the run
    does, the file holds afterwards what it held before, followed by
    what the run has added, if anything. *)
Theorem init_keeps_content scriptPath s c :
  zshrc (world s) = Holds c ->
  exists suffix,
    zshrc (world (snd (main scriptPath s))) = Holds (c ++ suffix).
Proof.
  intros Hc.
  destruct (main_cases scriptPath s) as (_ & H). cbv zeta in H.
  assert (Hsame : world (snd (main scriptPath s)) = world s ->
                  exists suffix,
                    zshrc (world (snd (main scriptPath s)))
                    = Holds (c ++ suffix)).
  { intros ->. exists EmptyString. now rewrite append_nil_r. }
  destruct H as [(_ & _ & Hw & _)
                |[(_ & m & _ & _ & Hw & _)
                 |[(_ & c' & _ & _ & _ & Hw & _)
                  |[(_ & c' & m & _ & _ & _ & _ & Hw & _)
                   |(_ & c' & Hc' & _ & _ & _ & Hw & _)]]]]; auto.
  rewrite Hc in Hc'. injection Hc' as <-. rewrite Hw. cbn [zshrc].
  unfold newContent. rewrite append_assoc. now eexists.
Qed.

Lemma init_keeps_content_witness :
  zshrc (world (mkState (mkDisk true (Holds "export EDITOR=vi") None)
                  "/repo" []))
  = Holds "export EDITOR=vi"
  /\ exists suffix,
       zshrc (world (snd (main "/repo/src/bash-functionality.sh"
                            (mkState
                               (mkDisk true (Holds "export EDITOR=vi") None)
                               "/repo" []))))
       = Holds ("export EDITOR=vi" ++ suffix).
Proof.
  split; [reflexivity|].
  exact (init_keeps_content "/repo/src/bash-functionality.sh"
           (mkState (mkDisk true (Holds "export EDITOR=vi") None) "/repo" [])
           "export EDITOR=vi" eq_refl).
Defined.

(** X20.  The script never throws, and ends in one of two ways.  It returns,
    and then [~/.zshrc] is there and holds the source command, and
    nothing was written on standard error; or it exits with status 1,
    the disk is as it was, and exactly one line went to standard
    error. *)
Theorem init_outcome scriptPath s :
  (fst (main scriptPath s) = Done tt
   /\ errors (trace (snd (main scriptPath s))) = errors (trace s)
   /\ exists c,
        zshrc (world (snd (main scriptPath s))) = Holds c
        /\ str_includes c (sourceCommand scriptPath) = true)
  \/ (fst (main scriptPath s) = Exited 1
      /\ world (snd (main scriptPath s)) = world s
      /\ exists line,
           errors (trace (snd (main scriptPath s)))
           = errors (trace s) ++ [line]).
Proof.
  cbv zeta.
  destruct (main_cases scriptPath s) as (_ & H). cbv zeta in H.
  destruct H as [(_ & Hr & Hw & Ht)
                |[(_ & m & _ & Hr & Hw & Ht)
                 |[(_ & c & Hc & Hinc & Hr & Hw & Ht)
                  |[(_ & c & m & _ & _ & _ & Hr & Hw & Ht)
                   |(_ & c & _ & _ & _ & Hr & Hw & l & Ht & Hl)]]]].
  - right. rewrite Ht, errors_app. repeat split; [exact Hr|exact Hw|].
    now eexists.
  - right. rewrite Ht, errors_app. repeat split; [exact Hr|exact Hw|].
    now eexists.
  - left. rewrite Ht, errors_app, Hw. split; [exact Hr|].
    split; [apply app_nil_r|]. exists c. split; [|exact Hinc].
    destruct (zshrc (world s)) as [|c'|m]; cbn [content_of] in Hc.
    + injection Hc as <-. rewrite sourceCommand_absent in Hinc.
      discriminate Hinc.
    + now injection Hc as <-.
    + discriminate Hc.
  - right. rewrite Ht, errors_app. repeat split; [exact Hr|exact Hw|].
    now eexists.
  - left. rewrite Ht, errors_app, Hw. split; [exact Hr|].
    split; [cbn [errors flat_map app]; fold (errors l); rewrite Hl;
            apply app_nil_r|].
    eexists. split; [reflexivity|apply newContent_includes].
Qed.

End InitFacts.

(** ** The completion script *)

Section CompletionFacts.

Import Completion.

Lemma includes_none_after_origin s :
  str_includes s "origin/" = false -> after_origin s = None.
Proof.
  induction s as [|c r IH]; [reflexivity|].
  cbn [str_includes after_origin]. intros H.
  apply orb_false_iff in H. destruct H as [Hhere Hrest].
  rewrite (IH Hrest), Hhere. now destruct (Js.is_line_terminator c).
Qed.

Lemma after_origin_here rest :
  str_includes rest "origin/" = false ->
  after_origin ("origin/" ++ rest) = Some rest.
Proof.
  intros H. pose proof (includes_none_after_origin _ H) as Hn.
  cbn [append]. cbn [after_origin]. rewrite Hn. reflexivity.
Qed.

Lemma after_origin_last before rest :
  any_char Js.is_line_terminator before = false ->
  str_includes rest "origin/" = false ->
  after_origin (before ++ "origin/" ++ rest) = Some rest.
Proof.
  intros Hb Hr. induction before as [|c b IH].
  - now apply after_origin_here.
  - cbn [any_char] in Hb. apply orb_false_iff in Hb. destruct Hb as [Hc Hb].
    change ((String c b ++ "origin/" ++ rest)%string)
      with (String c (b ++ "origin/" ++ rest)).
    cbn [after_origin]. now rewrite Hc, (IH Hb).
Qed.

(** X21.  The remote prefix is removed up to the last [origin/]: of a line
    that has [origin/] after characters none of which ends a line, what
    is kept is what follows the last [origin/], also when an [origin/]
    belongs to the name of the branch. *)
Theorem strip_origin_last before rest :
  any_char Js.is_line_terminator before = false ->
  str_includes rest "origin/" = false ->
  strip_origin (before ++ "origin/" ++ rest) = rest.
Proof.
  intros Hb Hr. unfold strip_origin. now rewrite after_origin_last.
Qed.

Lemma strip_origin_last_witness :
  any_char Js.is_line_terminator "origin/hotfix/" = false
  /\ str_includes "login" "origin/" = false
  /\ strip_origin ("origin/hotfix/" ++ "origin/" ++ "login") = "login".
Proof.
  split; [reflexivity|]. split; [reflexivity|].
  exact (strip_origin_last "origin/hotfix/" "login" eq_refl eq_refl).
Defined.

(** *** Sets and sorting *)

Lemma includes_iff xs x : Js.includes xs x = true <-> In x xs.
Proof.
  unfold Js.includes. rewrite existsb_exists. split.
  - intros (y & Hy & E). apply String.eqb_eq in E. now subst.
  - intros H. exists x. split; [exact H|apply String.eqb_refl].
Qed.

Lemma unique_from_In seen xs x :
  In x (unique_from seen xs) <-> In x xs /\ ~ In x seen.
Proof.
  revert seen. induction xs as [|y rest IH]; intros seen.
  - simpl. tauto.
  - cbn [unique_from]. destruct (Js.includes seen y) eqn:E.
    + apply includes_iff in E. rewrite IH. simpl.
      split; [tauto|]. intros [[->|H] Hn]; [contradiction|tauto].
    + assert (Hy : ~ In y seen)
        by (intros H; apply includes_iff in H; congruence).
      simpl. rewrite IH. simpl. split.
      * intros [->|[H Hn]]; [tauto|]. split; [tauto|]. intros Hs. apply Hn.
        now right.
      * intros [[->|H] Hn]; [now left|].
        destruct (string_dec y x) as [->|Hne]; [now left|].
        right. split; [exact H|]. intros [E'|Hs]; [congruence|contradiction].
Qed.

Lemma unique_from_NoDup seen xs : NoDup (unique_from seen xs).
Proof.
  revert seen. induction xs as [|y rest IH]; intros seen; [constructor|].
  cbn [unique_from]. destruct (Js.includes seen y); [apply IH|].
  constructor; [|apply IH]. intros H. apply unique_from_In in H.
  apply (proj2 H). now left.
Qed.

Lemma insert_In x y sorted : In y (insert x sorted) <-> y = x \/ In y sorted.
Proof.
  induction sorted as [|z rest IH]; simpl; [intuition|].
  destruct (String.leb x z); simpl; [intuition|]. rewrite IH. intuition.
Qed.

Lemma sort_In xs y : In y (sort xs) <-> In y xs.
Proof.
  induction xs as [|x rest IH]; [reflexivity|].
  cbn [sort fold_right]. fold (sort rest). rewrite insert_In, IH. simpl.
  intuition.
Qed.

Lemma Chained_strictly_sorted xs : Chained xs -> strictly_sorted xs.
Proof.
  intros H. induction H as [|x xs Hx Hxs IH];
    intros before a b after E.
  - now destruct before.
  - destruct before as [|c before]; injection E as -> E.
    + subst xs. exact Hx.
    + exact (IH _ _ _ _ E).
Qed.

Lemma insert_Chained x sorted :
  ~ In x sorted -> Chained sorted -> Chained (insert x sorted).
Proof.
  intros Hx H. induction H as [|y ys Hy Hys IH].
  - constructor; [exact I|constructor].
  - cbn [insert]. destruct (String.leb x y) eqn:E.
    + constructor; [|now constructor]. split; [exact E|].
      intros ->. apply Hx. now left.
    + assert (Hyx : String.leb y x = true)
        by (destruct (String.leb_total x y); congruence).
      assert (Hne : y <> x) by (intros ->; apply Hx; now left).
      constructor; [|apply IH; intros H; apply Hx; now right].
      destruct ys as [|z zs]; cbn [insert].
      * now split.
      * destruct (String.leb x z); [now split|exact Hy].
Qed.

Lemma sort_Chained xs : NoDup xs -> Chained (sort xs).
Proof.
  induction 1 as [|x rest Hx Hnd IH]; [constructor|].
  cbn [sort fold_right]. fold (sort rest). apply insert_Chained; [|exact IH].
  now rewrite sort_In.
Qed.

Lemma truthy_nonempty x : Js.truthy x = true <-> x <> EmptyString.
Proof.
  destruct x; simpl; split; intros H; try reflexivity; try discriminate;
    exfalso; now apply H.
Qed.

Lemma length_nonempty x : (0 <? String.length x)%nat = true <-> x <> EmptyString.
Proof.
  destruct x; simpl; split; intros H; try reflexivity; try discriminate;
    exfalso; now apply H.
Qed.

Lemma worktreeNames_In worktreePaths worktreeBase x :
  In x (worktreeNames worktreePaths worktreeBase) <->
  x <> EmptyString
  /\ exists path,
       In path worktreePaths /\ path <> EmptyString
       /\ path <> worktreeBase /\ Js.last_segment path = x.
Proof.
  unfold worktreeNames. rewrite in_flat_map. split.
  - intros (path & Hin & H).
    destruct (String.eqb path worktreeBase) eqn:E; [destruct H|].
    destruct (0 <? String.length path)%nat eqn:L; [|destruct H].
    cbn [negb andb] in H. cbv zeta in H.
    destruct (Js.truthy (Js.last_segment path)) eqn:T; [|destruct H].
    destruct H as [<-|[]]. split; [now apply truthy_nonempty|].
    exists path. repeat split; [exact Hin|now apply length_nonempty|].
    now apply String.eqb_neq.
  - intros (Hx & path & Hin & Hne & Hbase & <-). exists path.
    split; [exact Hin|].
    apply String.eqb_neq in Hbase. apply length_nonempty in Hne.
    rewrite Hbase, Hne. cbn [negb andb]. cbv zeta.
    apply truthy_nonempty in Hx. rewrite Hx. now left.
Qed.

Lemma branchNames_In stdout x :
  In x (branchNames stdout) <->
  x <> EmptyString
  /\ exists line,
       In line (Js.split Js.LF (Js.trim stdout))
       /\ str_includes (Js.trim line) "HEAD" = false
       /\ strip_origin (Js.trim line) = x.
Proof.
  unfold branchNames. rewrite filter_In, in_map_iff, length_nonempty. split.
  - intros ((t & <- & H) & Hx). split; [exact Hx|].
    apply filter_In in H. destruct H as [H Hhead].
    apply in_map_iff in H. destruct H as (line & <- & Hline).
    exists line. repeat split; [exact Hline|].
    now apply negb_true_iff.
  - intros (Hx & line & Hline & Hhead & <-). split; [|exact Hx].
    exists (Js.trim line). split; [reflexivity|]. apply filter_In.
    split; [|now apply negb_true_iff].
    apply in_map_iff. now exists line.
Qed.

Lemma options_In xs x : In x (sort (unique xs)) <-> In x xs.
Proof.
  rewrite sort_In. unfold unique. rewrite unique_from_In. simpl. tauto.
Qed.

Lemma strictly_sorted_nil : strictly_sorted [].
Proof. intros before a b after E. now destruct before. Qed.

(** X22.  The options come out in strictly increasing order of their code
    units, so that none is repeated; and none is empty. *)
Theorem completion_options_sorted r :
  strictly_sorted (getCompletionOptions r)
  /\ ~ In EmptyString (getCompletionOptions r).
Proof.
  unfold getCompletionOptions.
  destruct (gitDir r) as [git|]; [|split; [apply strictly_sorted_nil|intros []]].
  destruct (worktreeList r) as [stdout|];
    [|split; [apply strictly_sorted_nil|intros []]].
  cbv zeta.
  destruct (determineWorktreeBase (parse_worktree_list stdout))
    as [worktreeBase|];
    [|split; [apply strictly_sorted_nil|intros []]].
  split.
  - apply Chained_strictly_sorted, sort_Chained, unique_from_NoDup.
  - rewrite options_In, in_app_iff, worktreeNames_In. intros [[H _]|H].
    + now apply H.
    + destruct (remoteBranches r); [|destruct H].
      apply branchNames_In in H. now apply (proj1 H).
Qed.

(** X23.  What is offered.  An option is a name that is not empty and is
    either the last segment of the path of a listed worktree other than
    the base, or what [strip_origin] leaves of a trimmed line of
    [git branch -r] without [HEAD] in it.  Nothing is offered outside a
    repository, when the worktrees cannot be listed, or when the listing
    has no path; when the remote branches cannot be listed the worktree
    names are offered alone. *)
Theorem completion_options r x :
  In x (getCompletionOptions r) <->
  x <> EmptyString
  /\ exists git stdout worktreeBase,
       gitDir r = Ok git
       /\ worktreeList r = Ok stdout
       /\ determineWorktreeBase (parse_worktree_list stdout)
          = Some worktreeBase
       /\ ((exists path,
              In path (parse_worktree_list stdout)
              /\ path <> worktreeBase /\ Js.last_segment path = x)
           \/ (exists branches line,
                 remoteBranches r = Ok branches
                 /\ In line (Js.split Js.LF (Js.trim branches))
                 /\ str_includes (Js.trim line) "HEAD" = false
                 /\ strip_origin (Js.trim line) = x)).
Proof.
  unfold getCompletionOptions. split.
  - destruct (gitDir r) as [git|]; [|intros []].
    destruct (worktreeList r) as [stdout|]; [|intros []].
    cbv zeta.
    destruct (determineWorktreeBase (parse_worktree_list stdout))
      as [worktreeBase|] eqn:E; [|intros []].
    rewrite options_In, in_app_iff, worktreeNames_In.
    intros [(Hx & path & Hin & _ & Hbase & Hlast)|H].
    + split; [exact Hx|]. exists git, stdout, worktreeBase.
      do 2 (split; [reflexivity|]). split; [exact E|].
      left. now exists path.
    + destruct (remoteBranches r) as [branches|]; [|destruct H].
      apply branchNames_In in H. destruct H as (Hx & line & Hl & Hh & Hs).
      split; [exact Hx|]. exists git, stdout, worktreeBase.
      do 2 (split; [reflexivity|]). split; [exact E|].
      right. now exists branches, line.
  - intros (Hx & git & stdout & worktreeBase & -> & -> & -> & H). cbv zeta.
    rewrite options_In, in_app_iff, worktreeNames_In.
    destruct H as [(path & Hin & Hbase & Hlast)
                  |(branches & line & -> & Hl & Hh & Hs)].
    + left. split; [exact Hx|]. exists path. repeat split; try assumption.
      unfold parse_worktree_list in Hin. apply filter_In in Hin.
      now apply length_nonempty, (proj2 Hin).
    + right. apply branchNames_In. split; [exact Hx|]. now exists line.
Qed.

End CompletionFacts.
